(** * TelemetryCollector: a shallow embedding of [telemetry_collector.py]

    The collector samples system metrics at a fixed cadence, ranks the live
    processes by CPU and memory share, and writes the accumulated samples to a
    CSV table.  This file embeds [write_csv] and [collect_telemetry] and
    proves properties of the rate computation, the ranking, the sampling loop
    and the table schema.

    Modelling conventions.
    - Python [int] is [Z]; loop indices produced by [range] and [enumerate]
      are [nat].
    - Python [float] is idealised as an exact rational [Q]: rounding error,
      infinities and NaN are outside the model.
    - The operating system ([psutil], [time], the file system) is an explicit
      script of outcomes, one per call the program makes; a call either
      returns a value or raises.
    - A Python [dict] used as a CSV row is a [gmap string cell]. *)

From Stdlib Require Import ZArith QArith Qround Qabs String Ascii List Lia.
From Stdlib Require Import DecimalString Sorted Permutation Qfield Lqa.
From stdpp Require Import base list gmap strings.

Local Open Scope string_scope.
Local Open Scope list_scope.

(** ** Exceptions and results *)

(** The two branches of Python's [BaseException] hierarchy the program
    distinguishes: [KeyboardInterrupt] (caught by a bare [except:] and by
    [except KeyboardInterrupt]) and the subclasses of [Exception] (caught by a
    bare [except:] and by [except Exception]). *)
Inductive exn : Type :=
  | KeyboardInterrupt
  | Exception (msg : string).

Definition is_Exception (e : exn) : bool :=
  match e with
  | KeyboardInterrupt => false
  | Exception _ => true
  end.

(** [f"{e}"] *)
Definition exn_str (e : exn) : string :=
  match e with
  | KeyboardInterrupt => ""
  | Exception msg => msg
  end.

(** The outcome of one call: a value, or a raised exception. *)
Inductive result (A : Type) : Type :=
  | Ok (a : A)
  | Raise (e : exn).
Arguments Ok {A} a.
Arguments Raise {A} e.

(** ** Numbers *)

(** [f"{i}"] for a non-negative [int]. *)
Definition str_nat (n : nat) : string := NilEmpty.string_of_uint (Nat.to_uint n).

Definition str_int (z : Z) : string :=
  match z with
  | Z0 => "0"
  | Zpos p => str_nat (Pos.to_nat p)
  | Zneg p => "-" +:+ str_nat (Pos.to_nat p)
  end.

(** [a // b] on [int]: floor division, [ZeroDivisionError] on a zero divisor. *)
Definition floordiv (a b : Z) : result Z :=
  if Z.eqb b 0 then Raise (Exception "integer division or modulo by zero")
  else Ok (a / b)%Z.

(** [a / b] with a [float] or [int] numerator and an [int] divisor. *)
Definition truediv (a : Q) (b : Z) : result Q :=
  if Z.eqb b 0 then Raise (Exception "division by zero")
  else Ok (a / inject_Z b)%Q.

(** [round(x, 2)]: round half to even at the second decimal. *)
Definition round_half_even (y : Q) : Z :=
  let f := Qfloor y in
  match (y - inject_Z f ?= 1 # 2)%Q with
  | Lt => f
  | Gt => (f + 1)%Z
  | Eq => if Z.even f then f else (f + 1)%Z
  end.

Definition round2 (x : Q) : Q := (inject_Z (round_half_even (x * 100)) / 100)%Q.

(** ** Metric readings *)

Record net_counters : Type := { bytes_sent : Z; bytes_recv : Z }.
Record disk_counters : Type := { read_bytes : Z; write_bytes : Z }.
Record svmem : Type := { percent : Q; used : Z }.

(** A process as [psutil.process_iter(["pid", "name", "memory_percent"])]
    yields it: reading [pid] and the prefetched [info] raises nothing, the
    later call [p.cpu_percent(None)] may raise (the process exited, access is
    denied, or the operator's interrupt lands there).  The prefetched name
    and memory share are taken to be present here; psutil stores [None] for
    one it could not read, and the module [RankStep] below keeps that
    case. *)
Record proc_handle : Type := {
  p_pid : Z;
  info_name : string;
  info_memory_percent : Q;
  p_cpu_percent : result Q
}.

(** The dict [{"pid": .., "name": .., "cpu": .., "mem": ..}] of lines 153-158. *)
Record process : Type := { pid : Z; name : string; cpu : Q; mem : Q }.

(** One entry of [logs] (lines 165-178). *)
Record sample : Type := {
  log_ts : Q;
  log_time : string;
  log_cpu : Q;
  log_ram : Q;
  log_ram_gb : Q;
  log_disk_r : Q;
  log_disk_w : Q;
  log_net_s : Q;
  log_net_r : Q;
  log_charging : bool;
  log_top_cpu : list process;
  log_top_mem : list process
}.

(** ** [sorted(xs, key=..., reverse=True)]

    CPython's [list.sort] compares with [<] only and is stable; with
    [reverse=True] it reverses the list, sorts it ascending, and reverses the
    result.  The ascending sort is modelled by a stable insertion sort. *)
Section PySorted.
Context {A : Type} (key : A -> Q).

(** [key(x) < key(y)] *)
Definition key_lt (x y : A) : bool :=
  match (key x ?= key y)%Q with Lt => true | _ => false end.

(** Insert [x] in front of the first element that is not smaller. *)
Fixpoint insert_asc (x : A) (l : list A) : list A :=
  match l with
  | [] => [x]
  | y :: l' => if key_lt y x then y :: insert_asc x l' else x :: y :: l'
  end.

Fixpoint sort_asc (l : list A) : list A :=
  match l with
  | [] => []
  | x :: l' => insert_asc x (sort_asc l')
  end.

Definition sorted (reverse : bool) (l : list A) : list A :=
  if reverse then rev (sort_asc (rev l)) else sort_asc l.
End PySorted.

(** ** Process ranking (lines 150-163) *)

(** The enumeration loop: a handle whose read raises is skipped by the bare
    [except: continue], whatever the exception. *)
Fixpoint collect_processes (handles : list proc_handle) : list process :=
  match handles with
  | [] => []
  | p :: rest =>
      match p_cpu_percent p with
      | Ok c =>
          {| pid := p_pid p; name := info_name p; cpu := c;
             mem := info_memory_percent p |} :: collect_processes rest
      | Raise _ => collect_processes rest
      end
  end.

(** [xs[:10]] *)
Definition top10 {A : Type} (xs : list A) : list A := firstn 10 xs.

Definition rank_cpu (processes : list process) : list process :=
  top10 (sorted cpu true processes).

Definition rank_mem (processes : list process) : list process :=
  top10 (sorted mem true processes).

(** ** The CSV table (lines 47-99) *)

(** What [csv.writer] receives for one column: [''] for a missing key, or the
    value stored in the row dict. *)
Inductive cell : Type :=
  | Blank
  | CStr (s : string)
  | CInt (z : Z)
  | CFloat (q : Q)
  | CBool (b : bool).

Definition scalar_fields : list string :=
  [ "timestamp_unix"; "timestamp_human"; "hw_label";
    "cpu_percent"; "ram_percent"; "ram_used_gb";
    "disk_read_kb_s"; "disk_write_kb_s";
    "net_sent_kb_s"; "net_recv_kb_s";
    "charging" ].

(** [f"top_{kind}_{i}_{what}"] *)
Definition slot_field (kind : string) (i : nat) (what : string) : string :=
  "top_" +:+ kind +:+ "_" +:+ str_nat i +:+ "_" +:+ what.

(** The list added to [fields] by one iteration of lines 60-64. *)
Definition slot_fields (i : nat) : list string :=
  [ slot_field "cpu" i "pid"; slot_field "cpu" i "name"; slot_field "cpu" i "value";
    slot_field "mem" i "pid"; slot_field "mem" i "name"; slot_field "mem" i "value" ].

(** [range(1, 11)] *)
Definition range_1_11 : list nat := seq 1 10.

(** [fields] after the loop [for i in range(1, 11): fields += [...]]. *)
Definition fields : list string :=
  fold_left (fun fs i => fs ++ slot_fields i) range_1_11 scalar_fields.

(** The dict literal of lines 72-84. *)
Definition scalar_row (label : string) (log : sample) : gmap string cell :=
  list_to_map
    [ ("timestamp_unix", CFloat (log_ts log));
      ("timestamp_human", CStr (log_time log));
      ("hw_label", CStr label);
      ("cpu_percent", CFloat (log_cpu log));
      ("ram_percent", CFloat (log_ram log));
      ("ram_used_gb", CFloat (log_ram_gb log));
      ("disk_read_kb_s", CFloat (log_disk_r log));
      ("disk_write_kb_s", CFloat (log_disk_w log));
      ("net_sent_kb_s", CFloat (log_net_s log));
      ("net_recv_kb_s", CFloat (log_net_r log));
      ("charging", CBool (log_charging log)) ].

(** [for i, p in enumerate(ps, i): row[..pid] = ..; row[..name] = ..;
    row[..value] = value(p)] (lines 86-94). *)
Fixpoint fill_slots (kind : string) (value : process -> Q) (i : nat)
    (ps : list process) (row : gmap string cell) : gmap string cell :=
  match ps with
  | [] => row
  | p :: ps' =>
      fill_slots kind value (S i) ps'
        (<[slot_field kind i "value" := CFloat (value p)]>
           (<[slot_field kind i "name" := CStr (name p)]>
              (<[slot_field kind i "pid" := CInt (pid p)]> row)))
  end.

Definition build_row (label : string) (log : sample) : gmap string cell :=
  fill_slots "mem" mem 1 (log_top_mem log)
    (fill_slots "cpu" cpu 1 (log_top_cpu log) (scalar_row label log)).

(** [csv.DictWriter._dict_to_list] with the default [extrasaction="raise"]
    and [restval=""]: a key outside [fieldnames] is a [ValueError], a missing
    key is written blank.  (The real message also lists the offending keys.) *)
Definition dict_to_list (fieldnames : list string) (rowdict : gmap string cell)
    : result (list cell) :=
  if forallb (fun k => bool_decide (k ∈ fieldnames)) (map fst (map_to_list rowdict))
  then Ok (map (fun k => default Blank (rowdict !! k)) fieldnames)
  else Raise (Exception "dict contains fields not in fieldnames").

(** What the output file does during one [write_csv]: every call on it
    succeeds, [open] raises, or the write call number [n] raises ([0] is
    [writeheader], [k+1] the [writerow] of [logs[k]]).  A raising write
    stands for whatever the file object raises there: an [OSError] of the
    file system, or the [UnicodeEncodeError] of a cell that the utf-8 file of
    line 67 cannot encode (a process name with a lone surrogate). *)
Inductive io_script : Type :=
  | IoFine
  | IoOpenFails (e : exn)
  | IoWriteFails (n : nat) (e : exn).

Definition table : Type := list (list cell).

(** One write of a row to the open file: it raises when the script says
    so, and appends the row otherwise. *)
Definition emit (io : io_script) (n : nat) (cells : list cell) (written : table)
    : result unit * table :=
  match io with
  | IoWriteFails k e => if Nat.eqb k n then (Raise e, written)
                        else (Ok tt, written ++ [cells])
  | _ => (Ok tt, written ++ [cells])
  end.

(** [writer.writeheader()] *)
Definition writeheader (io : io_script) (fieldnames : list string) (written : table)
    : result unit * table :=
  emit io 0 (map CStr fieldnames) written.

(** [writer.writerow(row)] as write call number [n]. *)
Definition writerow (io : io_script) (n : nat) (fieldnames : list string)
    (row : gmap string cell) (written : table) : result unit * table :=
  match dict_to_list fieldnames row with
  | Raise e => (Raise e, written)
  | Ok cells => emit io n cells written
  end.

(** The loop [for log in logs: ...; writer.writerow(row)]. *)
Fixpoint write_rows (io : io_script) (n : nat) (label : string)
    (logs : list sample) (written : table) : result unit * table :=
  match logs with
  | [] => (Ok tt, written)
  | log :: rest =>
      match writerow io n fields (build_row label log) written with
      | (Ok _, written') => write_rows io (S n) label rest written'
      | (Raise e, written') => (Raise e, written')
      end
  end.

(** The effect of one [write_csv] call as its caller and the outside world
    see it. *)
Record write_outcome : Type := {
  wo_result : result unit;            (* returns [None], or raises *)
  wo_stdout : list string;            (* what it printed *)
  wo_path : string;                   (* the file it addressed *)
  wo_file : option table;             (* [None]: never opened; else the content *)
  wo_logs : list sample               (* the caller's [logs] list afterwards *)
}.

(** [folder / name] *)
Definition path_join (folder name : string) : string := folder +:+ "/" +:+ name.

(** The [try] block of lines 66-97; [except Exception] (line 98) catches
    every exception but [KeyboardInterrupt]. *)
Definition write_csv (io : io_script) (base label : string) (logs : list sample)
    (folder : string) : write_outcome :=
  let file := path_join folder (base +:+ "_metrics.csv") in
  let attempt : result unit * option table :=
    match io with
    | IoOpenFails e => (Raise e, None)
    | _ =>
        match writeheader io fields [] with
        | (Raise e, written) => (Raise e, Some written)
        | (Ok _, written) =>
            let '(r, written') := write_rows io 1 label logs written in
            (r, Some written')
        end
    end in
  match attempt with
  | (Ok _, content) =>
      {| wo_result := Ok tt;
         wo_stdout := ["[✓] CSV saved: " +:+ file];
         wo_path := file; wo_file := content; wo_logs := logs |}
  | (Raise e, content) =>
      if is_Exception e then
        {| wo_result := Ok tt;
           wo_stdout := ["[!] Failed to write CSV: " +:+ exn_str e];
           wo_path := file; wo_file := content; wo_logs := logs |}
      else
        {| wo_result := Raise e; wo_stdout := [];
           wo_path := file; wo_file := content; wo_logs := logs |}
  end.

(** ** The sampling loop (lines 101-185) *)

(** What the outside world does during one iteration of the loop, call by
    call, in program order. *)
Record tick_source : Type := {
  time_time : Q;                                  (* [time.time()] *)
  time_strftime : string;                         (* the formatted timestamp *)
  sensors_battery : result (option bool);         (* [None], or [power_plugged] *)
  cpu_percent_blocking : result Q;                (* [psutil.cpu_percent(interval=..)] *)
  virtual_memory : result svmem;
  net_io_counters : result net_counters;
  disk_io_counters : result disk_counters;
  process_iter : list proc_handle;                (* the handles the iterator yields *)
  process_iter_end : option exn                   (* then it stops, or raises *)
}.

(** The outside world for one run of [collect_telemetry]. *)
Record world : Type := {
  get_storage_directory : result string;
  start_strftime : string;                        (* [time.strftime("%Y%m%d_%H%M%S")] *)
  prime_cpu_percent : result Q;                   (* [psutil.cpu_percent(None)] *)
  prime_process_iter : list (result Q);           (* each [p.cpu_percent(None)] *)
  prime_process_iter_end : option exn;
  prime_net_io_counters : result net_counters;
  prime_disk_io_counters : result disk_counters;
  tick_at : nat -> tick_source;                   (* iteration [i] of the loop *)
  file_system : io_script                         (* during [write_csv] *)
}.

(** The mutable state of a run: the locals [logs], [net_prev], [disk_prev],
    what was printed, and the [write_csv] calls made so far.  [net_prev] and
    [disk_prev] hold a placeholder until lines 122-123 assign them; nothing
    reads them before. *)
Record frame : Type := {
  logs : list sample;
  net_prev : net_counters;
  disk_prev : disk_counters;
  stdout : list string;
  writes : list write_outcome
}.

Definition empty_frame : frame :=
  {| logs := []; net_prev := {| bytes_sent := 0; bytes_recv := 0 |};
     disk_prev := {| read_bytes := 0; write_bytes := 0 |};
     stdout := []; writes := [] |}.

(** Statements: state passing with exceptions; the state survives a raise. *)
Definition M (A : Type) : Type := frame -> result A * frame.

Definition ret {A : Type} (a : A) : M A := fun f => (Ok a, f).

Definition bind {A B : Type} (m : M A) (k : A -> M B) : M B :=
  fun f => match m f with
           | (Ok a, f') => k a f'
           | (Raise e, f') => (Raise e, f')
           end.

Declare Scope py_scope.
Delimit Scope py_scope with py.
Notation "x <- m ;; k" := (bind m (fun x => k))
  (at level 100, m at next level, k at level 200, right associativity) : py_scope.
Notation "m ;; k" := (bind m (fun _ => k))
  (at level 100, k at level 200, right associativity) : py_scope.

(** A call into the outside world. *)
Definition call {A : Type} (r : result A) : M A := fun f => (r, f).

Definition get {A : Type} (proj : frame -> A) : M A := fun f => (Ok (proj f), f).

(** [print(s)]: [stdout] records the text of each call, without the [end]
    terminator (a line feed, or a carriage return for the progress line). *)
Definition print (s : string) : M unit :=
  fun f => (Ok tt, {| logs := logs f; net_prev := net_prev f; disk_prev := disk_prev f;
                      stdout := stdout f ++ [s]; writes := writes f |}).

(** [net_prev, disk_prev = net_now, disk_now] *)
Definition set_prev (n : net_counters) (d : disk_counters) : M unit :=
  fun f => (Ok tt, {| logs := logs f; net_prev := n; disk_prev := d;
                      stdout := stdout f; writes := writes f |}).

(** [logs.append(s)] *)
Definition logs_append (s : sample) : M unit :=
  fun f => (Ok tt, {| logs := logs f ++ [s]; net_prev := net_prev f;
                      disk_prev := disk_prev f; stdout := stdout f;
                      writes := writes f |}).

(** [logs = []] *)
Definition logs_reset : M unit :=
  fun f => (Ok tt, {| logs := []; net_prev := net_prev f;
                      disk_prev := disk_prev f; stdout := stdout f;
                      writes := writes f |}).

(** [try: body except KeyboardInterrupt: handler] *)
Definition try_except_KeyboardInterrupt (body handler : M unit) : M unit :=
  fun f => match body f with
           | (Raise KeyboardInterrupt, f') => handler f'
           | other => other
           end.

(** [for i in range(n): body(i)], as the list of indices still to run. *)
Fixpoint for_each (body : nat -> M unit) (indices : list nat) : M unit :=
  match indices with
  | [] => ret tt
  | i :: rest => (body i ;; for_each body rest)%py
  end.

(** [range(n)] for an [int] [n]: empty when [n <= 0]. *)
Definition range (n : Z) : list nat := seq 0 (Z.to_nat n).

(** RateTracker: [(curr - prev) / 1024 / interval] (lines 143-146). *)
Definition kb_per_s (prev curr interval : Z) : result Q :=
  truediv (inject_Z (curr - prev) / 1024)%Q interval.

(** The process enumeration of lines 150-160: the handles are read under the
    bare [except], the iterator itself is not protected. *)
Definition enumerate_processes (src : tick_source) : result (list process) :=
  match process_iter_end src with
  | Some e => Raise e
  | None => Ok (collect_processes (process_iter src))
  end.

(** The loop body, lines 129-178. *)
Definition tick (interval samples : Z) (i : nat) (src : tick_source) : M unit :=
  (print ("Collecting sample " +:+ str_int (Z.of_nat i + 1) +:+ "/"
           +:+ str_int samples +:+ "...") ;;
   let ts := time_time src in
   let time_h := time_strftime src in
   battery <- call (sensors_battery src) ;;
   let charging := match battery with Some plugged => plugged | None => false end in
   cpu <- call (cpu_percent_blocking src) ;;
   mem <- call (virtual_memory src) ;;
   net_now <- call (net_io_counters src) ;;
   disk_now <- call (disk_io_counters src) ;;
   np <- get net_prev ;;
   dp <- get disk_prev ;;
   net_sent <- call (kb_per_s (bytes_sent np) (bytes_sent net_now) interval) ;;
   net_recv <- call (kb_per_s (bytes_recv np) (bytes_recv net_now) interval) ;;
   disk_r <- call (kb_per_s (read_bytes dp) (read_bytes disk_now) interval) ;;
   disk_w <- call (kb_per_s (write_bytes dp) (write_bytes disk_now) interval) ;;
   set_prev net_now disk_now ;;
   processes <- call (enumerate_processes src) ;;
   let top_cpu := rank_cpu processes in
   let top_mem := rank_mem processes in
   logs_append
     {| log_ts := ts;
        log_time := time_h;
        log_cpu := cpu;
        log_ram := percent mem;
        log_ram_gb := round2 (inject_Z (used mem) / inject_Z (1024 ^ 3));
        log_disk_r := round2 disk_r;
        log_disk_w := round2 disk_w;
        log_net_s := round2 net_sent;
        log_net_r := round2 net_recv;
        log_charging := charging;
        log_top_cpu := top_cpu;
        log_top_mem := top_mem |})%py.

(** The loop of lines 128-178 over a given source of ticks. *)
Definition running (interval samples : Z) (src : nat -> tick_source)
    (indices : list nat) : M unit :=
  for_each (fun i => tick interval samples i (src i)) indices.

(** The line feed of ["\n"], and the two closing messages of lines 181 and
    185, each printed with a leading line feed. *)
Definition LF : string := String "010" "".
Definition msg_interrupted : string := LF +:+ "[!] Telemetry interrupted by user.".
Definition msg_finished : string := LF +:+ "[✓] Telemetry collection finished.".

(** Module constants (lines 11-12); the start banner prints these, not the
    arguments. *)
Definition TOTAL_DURATION : Z := 3600.
Definition SAMPLE_INTERVAL : Z := 5.

(** Priming, lines 115-123: the per-process reads sit under a bare [except:
    pass]; the other calls are unprotected. *)
Fixpoint prime_processes (reads : list (result Q)) : M unit :=
  match reads with
  | [] => ret tt
  | r :: rest =>
      (match r with Ok _ => ret tt | Raise _ => ret tt end ;;
       prime_processes rest)%py
  end.

Definition priming (W : world) : M unit :=
  (_ <- call (prime_cpu_percent W) ;;
   prime_processes (prime_process_iter W) ;;
   _ <- call (match prime_process_iter_end W with
              | Some e => Raise e
              | None => Ok tt
              end) ;;
   n <- call (prime_net_io_counters W) ;;
   d <- call (prime_disk_io_counters W) ;;
   set_prev n d)%py.

(** The call [write_csv(filename_base, label, logs, storage_dir)] of line
    184, recorded in the frame. *)
Definition call_write_csv (io : io_script) (base label folder : string) : M unit :=
  fun f =>
    let wo := write_csv io base label (logs f) folder in
    (wo_result wo,
     {| logs := wo_logs wo; net_prev := net_prev f; disk_prev := disk_prev f;
        stdout := stdout f ++ wo_stdout wo; writes := writes f ++ [wo] |}).

Definition collect_telemetry (W : world) (label : string) (duration interval : Z)
    : M unit :=
  (storage_dir <- call (get_storage_directory W) ;;
   let start_ts := start_strftime W in
   let filename_base := "telemetry_" +:+ label +:+ "_" +:+ start_ts in
   let file_path := path_join storage_dir (filename_base +:+ "_metrics.csv") in
   print ("[✓] Telemetry will be saved to:" +:+ LF +:+ file_path +:+ LF) ;;
   print ("--- Starting telemetry collection (" +:+ str_int TOTAL_DURATION
          +:+ "s total, " +:+ str_int SAMPLE_INTERVAL +:+ "s interval) ---" +:+ LF) ;;
   logs_reset ;;
   priming W ;;
   samples <- call (floordiv duration interval) ;;
   try_except_KeyboardInterrupt
     (running interval samples (tick_at W) (range samples))
     (print msg_interrupted) ;;
   call_write_csv (file_system W) filename_base label storage_dir ;;
   print msg_finished)%py.

(** A whole run, from a fresh frame. *)
Definition run (W : world) (label : string) (duration interval : Z)
    : result unit * frame :=
  collect_telemetry W label duration interval empty_frame.

(** ** Vocabulary of the statements *)

(** [s] is a stable descending sort of [l] by [key]: a rearrangement of [l],
    every element at least as large as all later ones, and elements of equal
    key in the order [l] has them. *)
Definition same_key {A : Type} (key : A -> Q) (v : Q) (x : A) : bool :=
  Qeq_bool (key x) v.

Definition descending {A : Type} (key : A -> Q) (x y : A) : Prop :=
  (key y <= key x)%Q.

Definition ascending {A : Type} (key : A -> Q) (x y : A) : Prop :=
  (key x <= key y)%Q.

Definition stable_desc_sort_of {A : Type} (key : A -> Q) (l s : list A) : Prop :=
  Permutation s l /\
  StronglySorted (descending key) s /\
  forall v, List.filter (same_key key v) s = List.filter (same_key key v) l.

(** Adjacent elements of [s] are in descending order of [key]. *)
Definition adjacent_desc {A : Type} (key : A -> Q) (s : list A) : Prop :=
  forall i x y, s !! i = Some x -> s !! (S i) = Some y -> (key y <= key x)%Q.

(** What a handle contributes to the tick's process list, if its read
    succeeds. *)
Definition observe (p : proc_handle) : option process :=
  match p_cpu_percent p with
  | Ok c => Some {| pid := p_pid p; name := info_name p; cpu := c;
                    mem := info_memory_percent p |}
  | Raise _ => None
  end.

(** The number of handles whose read raises. *)
Definition failures (handles : list proc_handle) : nat :=
  length (List.filter (fun p => match p_cpu_percent p with
                                | Ok _ => false | Raise _ => true end) handles).

(** The successful whole-system readings of one tick. *)
Record readings : Type := {
  rd_battery : option bool;
  rd_cpu : Q;
  rd_mem : svmem;
  rd_net : net_counters;
  rd_disk : disk_counters
}.

(** The unprotected whole-system reads of a tick in program order: the first
    one to raise decides. *)
Definition tick_reads (src : tick_source) : result readings :=
  match sensors_battery src with
  | Raise e => Raise e
  | Ok b =>
  match cpu_percent_blocking src with
  | Raise e => Raise e
  | Ok c =>
  match virtual_memory src with
  | Raise e => Raise e
  | Ok m =>
  match net_io_counters src with
  | Raise e => Raise e
  | Ok n =>
  match disk_io_counters src with
  | Raise e => Raise e
  | Ok d => Ok {| rd_battery := b; rd_cpu := c; rd_mem := m;
                  rd_net := n; rd_disk := d |}
  end end end end end.

(** The exception that escapes the tick, if any: raised by a whole-system
    read or by the process iterator itself. *)
Definition tick_fault (src : tick_source) : option exn :=
  match tick_reads src with
  | Raise e => Some e
  | Ok _ => process_iter_end src
  end.

(** The exact rate in KB/s between two counter readings. *)
Definition rate (prev curr interval : Z) : Q :=
  (inject_Z (curr - prev) / 1024 / inject_Z interval)%Q.

(** The sample a fault-free tick appends. *)
Definition assemble (interval : Z) (np : net_counters) (dp : disk_counters)
    (src : tick_source) (rd : readings) : sample :=
  {| log_ts := time_time src;
     log_time := time_strftime src;
     log_cpu := rd_cpu rd;
     log_ram := percent (rd_mem rd);
     log_ram_gb := round2 (inject_Z (used (rd_mem rd)) / inject_Z (1024 ^ 3));
     log_disk_r := round2 (rate (read_bytes dp) (read_bytes (rd_disk rd)) interval);
     log_disk_w := round2 (rate (write_bytes dp) (write_bytes (rd_disk rd)) interval);
     log_net_s := round2 (rate (bytes_sent np) (bytes_sent (rd_net rd)) interval);
     log_net_r := round2 (rate (bytes_recv np) (bytes_recv (rd_net rd)) interval);
     log_charging := match rd_battery rd with Some plugged => plugged | None => false end;
     log_top_cpu := rank_cpu (collect_processes (process_iter src));
     log_top_mem := rank_mem (collect_processes (process_iter src)) |}.

(** The progress line of iteration [i] (line 129). *)
Definition progress (samples : Z) (i : nat) : string :=
  "Collecting sample " +:+ str_int (Z.of_nat i + 1) +:+ "/"
    +:+ str_int samples +:+ "...".

(** Everything before the loop succeeds: the storage directory, the priming
    reads, the first counters. *)
Definition startup_ok (W : world) : Prop :=
  (exists d, get_storage_directory W = Ok d) /\
  (exists c, prime_cpu_percent W = Ok c) /\
  prime_process_iter_end W = None /\
  (exists n, prime_net_io_counters W = Ok n) /\
  (exists d, prime_disk_io_counters W = Ok d).

(** [r] is the KB/s rate between the counter readings [prev] and [curr]
    over [interval] seconds: the quotient itself, with its sign. *)
Definition exact_rate (r : Q) (prev curr interval : Z) : Prop :=
  r = (inject_Z (curr - prev) / 1024 / inject_Z interval)%Q /\
  (r * 1024 * inject_Z interval == inject_Z curr - inject_Z prev)%Q /\
  ((prev <= curr)%Z -> (0 <= r)%Q) /\
  ((curr < prev)%Z -> (r < 0)%Q).

(** ** Concrete scenarios

    The stub source of the end-to-end scenario: constant 50% CPU, disk-read
    counter growing by 1024 bytes per tick, three processes of which the
    second cannot be read. *)
Definition stub_handles : list proc_handle :=
  [ {| p_pid := 11; info_name := "init"; info_memory_percent := 1;
       p_cpu_percent := Ok 2%Q |};
    {| p_pid := 12; info_name := "gone"; info_memory_percent := 9;
       p_cpu_percent := Raise (Exception "NoSuchProcess") |};
    {| p_pid := 13; info_name := "shell"; info_memory_percent := 3;
       p_cpu_percent := Ok 2%Q |} ].

Definition stub_readings (i : nat) : readings :=
  {| rd_battery := None; rd_cpu := 50;
     rd_mem := {| percent := 40; used := 4 * 1024 ^ 3 |};
     rd_net := {| bytes_sent := 0; bytes_recv := 0 |};
     rd_disk := {| read_bytes := 1024 * (Z.of_nat i + 1); write_bytes := 0 |} |}.

Definition stub_tick (i : nat) : tick_source :=
  {| time_time := inject_Z (5 * Z.of_nat i);
     time_strftime := "2024-01-01 00:00:00";
     sensors_battery := Ok (rd_battery (stub_readings i));
     cpu_percent_blocking := Ok (rd_cpu (stub_readings i));
     virtual_memory := Ok (rd_mem (stub_readings i));
     net_io_counters := Ok (rd_net (stub_readings i));
     disk_io_counters := Ok (rd_disk (stub_readings i));
     process_iter := stub_handles;
     process_iter_end := None |}.

Definition stub_world : world :=
  {| get_storage_directory := Ok "/home/user/Desktop/Telemetry_Data";
     start_strftime := "20240101_000000";
     prime_cpu_percent := Ok 0%Q;
     prime_process_iter := [Ok 0%Q; Raise (Exception "AccessDenied")];
     prime_process_iter_end := None;
     prime_net_io_counters := Ok {| bytes_sent := 0; bytes_recv := 0 |};
     prime_disk_io_counters := Ok {| read_bytes := 0; write_bytes := 0 |};
     tick_at := stub_tick;
     file_system := IoFine |}.

(** The two banner lines printed before priming (lines 109-110). *)
Definition filename_base (W : world) (label : string) : string :=
  "telemetry_" +:+ label +:+ "_" +:+ start_strftime W.

Definition banner (W : world) (label storage_dir : string) : list string :=
  [ "[✓] Telemetry will be saved to:" +:+ LF
      +:+ path_join storage_dir (filename_base W label +:+ "_metrics.csv") +:+ LF;
    "--- Starting telemetry collection (" +:+ str_int TOTAL_DURATION
      +:+ "s total, " +:+ str_int SAMPLE_INTERVAL +:+ "s interval) ---" +:+ LF ].

(** The frame when the loop starts: nothing logged, the priming counters as
    baseline, the banner printed. *)
Definition started (W : world) (label storage_dir : string)
    (n0 : net_counters) (d0 : disk_counters) : frame :=
  {| logs := []; net_prev := n0; disk_prev := d0;
     stdout := banner W label storage_dir; writes := [] |}.

(** Lines 184-185: the one [write_csv] call and the closing line. *)
Definition finish (W : world) (label storage_dir : string) : M unit :=
  (call_write_csv (file_system W) (filename_base W label) label storage_dir ;;
   print msg_finished)%py.

(** The number of scheduled ticks, [floor(T / I)]. *)
Definition scheduled (duration interval : Z) : nat := Z.to_nat (duration / interval).

(** Variations of the stub: one tick's blocking CPU read or process handles
    replaced, one world's ticks replaced. *)
Definition with_cpu (r : result Q) (src : tick_source) : tick_source :=
  {| time_time := time_time src; time_strftime := time_strftime src;
     sensors_battery := sensors_battery src;
     cpu_percent_blocking := r;
     virtual_memory := virtual_memory src;
     net_io_counters := net_io_counters src;
     disk_io_counters := disk_io_counters src;
     process_iter := process_iter src;
     process_iter_end := process_iter_end src |}.

Definition with_handles (hs : list proc_handle) (src : tick_source) : tick_source :=
  {| time_time := time_time src; time_strftime := time_strftime src;
     sensors_battery := sensors_battery src;
     cpu_percent_blocking := cpu_percent_blocking src;
     virtual_memory := virtual_memory src;
     net_io_counters := net_io_counters src;
     disk_io_counters := disk_io_counters src;
     process_iter := hs;
     process_iter_end := process_iter_end src |}.

Definition with_ticks (ticks : nat -> tick_source) (W : world) : world :=
  {| get_storage_directory := get_storage_directory W;
     start_strftime := start_strftime W;
     prime_cpu_percent := prime_cpu_percent W;
     prime_process_iter := prime_process_iter W;
     prime_process_iter_end := prime_process_iter_end W;
     prime_net_io_counters := prime_net_io_counters W;
     prime_disk_io_counters := prime_disk_io_counters W;
     tick_at := ticks;
     file_system := file_system W |}.

(** The operator's interrupt lands in the blocking CPU read of the second
    tick. *)
Definition cancelled_world : world :=
  with_ticks (fun i => if Nat.eqb i 1 then with_cpu (Raise KeyboardInterrupt) (stub_tick i)
                       else stub_tick i) stub_world.

(** The operator's interrupt lands in a per-process read of the first tick. *)
Definition interrupted_handles : list proc_handle :=
  [ {| p_pid := 11; info_name := "init"; info_memory_percent := 1;
       p_cpu_percent := Ok 2%Q |};
    {| p_pid := 12; info_name := "busy"; info_memory_percent := 9;
       p_cpu_percent := Raise KeyboardInterrupt |} ].

Definition interrupted_world : world :=
  with_ticks (fun i => if Nat.eqb i 0 then with_handles interrupted_handles (stub_tick i)
                       else stub_tick i) stub_world.

(** The metrics capability fails in the blocking CPU read of the second
    tick. *)
Definition broken_world : world :=
  with_ticks (fun i => if Nat.eqb i 1
                       then with_cpu (Raise (Exception "psutil.Error")) (stub_tick i)
                       else stub_tick i) stub_world.

(** ** Vocabulary of the table statements *)

(** A sample as the loop builds it: each ranking has at most ten entries. *)
Definition wf_sample (log : sample) : Prop :=
  length (log_top_cpu log) <= 10 /\ length (log_top_mem log) <= 10.

(** The three columns of ranking slot [i] (counted from 1). *)
Definition slot_triple (kind : string) (i : nat) : list string :=
  [ slot_field kind i "pid"; slot_field kind i "name"; slot_field kind i "value" ].

(** The column order the code builds: after the scalar columns, for each
    slot [i] the CPU triple immediately followed by the memory triple. *)
Definition interleaved_fields : list string :=
  scalar_fields
  ++ flat_map (fun i => slot_triple "cpu" i ++ slot_triple "mem" i) range_1_11.

(** The column order as the specification words it: the scalar columns, then
    the ten CPU triples, then the ten memory triples. *)
Definition grouped_fields : list string :=
  scalar_fields
  ++ flat_map (slot_triple "cpu") range_1_11
  ++ flat_map (slot_triple "mem") range_1_11.

(** The cells of ranking slot [i]: the entry ranked [i], or three blanks. *)
Definition slot_cells (value : process -> Q) (ps : list process) (i : nat)
    : list cell :=
  match ps !! (i - 1) with
  | Some p => [CInt (pid p); CStr (name p); CFloat (value p)]
  | None => [Blank; Blank; Blank]
  end.

Definition scalar_cells (label : string) (log : sample) : list cell :=
  [ CFloat (log_ts log); CStr (log_time log); CStr label;
    CFloat (log_cpu log); CFloat (log_ram log); CFloat (log_ram_gb log);
    CFloat (log_disk_r log); CFloat (log_disk_w log);
    CFloat (log_net_s log); CFloat (log_net_r log);
    CBool (log_charging log) ].

(** The data row of a sample, column by column. *)
Definition row_cells (label : string) (log : sample) : list cell :=
  scalar_cells label log
  ++ flat_map (fun i => slot_cells cpu (log_top_cpu log) i
                        ++ slot_cells mem (log_top_mem log) i) range_1_11.

(** The header row. *)
Definition header : list cell := map CStr fields.


(** The sample the first stub tick produces after the stub priming. *)
Definition stub_sample : sample :=
  assemble 5 {| bytes_sent := 0; bytes_recv := 0 |}
           {| read_bytes := 0; write_bytes := 0 |} (stub_tick 0) (stub_readings 0).

(** The operator's interrupt lands in the priming read
    [psutil.cpu_percent(None)] of line 115. *)
Definition unprimed_world : world :=
  {| get_storage_directory := get_storage_directory stub_world;
     start_strftime := start_strftime stub_world;
     prime_cpu_percent := Raise KeyboardInterrupt;
     prime_process_iter := prime_process_iter stub_world;
     prime_process_iter_end := prime_process_iter_end stub_world;
     prime_net_io_counters := prime_net_io_counters stub_world;
     prime_disk_io_counters := prime_disk_io_counters stub_world;
     tick_at := tick_at stub_world;
     file_system := file_system stub_world |}.

(** ** Vocabulary of the whole-run statements *)

(** The samples a run of fault-free ticks appends, given the counters the
    first of them is measured against: each tick hands its own counters to
    the next. *)
Fixpoint samples_from (interval : Z) (src : nat -> tick_source)
    (np : net_counters) (dp : disk_counters) (indices : list nat) : list sample :=
  match indices with
  | [] => []
  | i :: rest =>
      match tick_reads (src i) with
      | Ok rd => assemble interval np dp (src i) rd
                 :: samples_from interval src (rd_net rd) (rd_disk rd) rest
      | Raise _ => []
      end
  end.

(** What the loop guarantees of every sample it logs: at most ten entries in
    each ranking, each ranking in descending order of its own value. *)
Definition ranked_sample (s : sample) : Prop :=
  wf_sample s /\
  adjacent_desc cpu (log_top_cpu s) /\
  adjacent_desc mem (log_top_mem s).

(** A world that differs only in what the priming reads return: the value
    of [psutil.cpu_percent(None)] and the outcome of each per-process
    [p.cpu_percent(None)]. *)
Definition with_priming (c : Q) (reads : list (result Q)) (W : world) : world :=
  {| get_storage_directory := get_storage_directory W;
     start_strftime := start_strftime W;
     prime_cpu_percent := Ok c;
     prime_process_iter := reads;
     prime_process_iter_end := prime_process_iter_end W;
     prime_net_io_counters := prime_net_io_counters W;
     prime_disk_io_counters := prime_disk_io_counters W;
     tick_at := tick_at W;
     file_system := file_system W |}.

(** The first line printed by [collect_telemetry] for a given file path. *)
Definition announce (file_path : string) : string :=
  "[✓] Telemetry will be saved to:" +:+ LF +:+ file_path +:+ LF.

(** A sample whose CPU ranking was not cut to ten entries: eleven copies of
    one process. *)
Definition overlong_sample : sample :=
  {| log_ts := 0; log_time := "2024-01-01 00:00:00"; log_cpu := 0; log_ram := 0;
     log_ram_gb := 0; log_disk_r := 0; log_disk_w := 0; log_net_s := 0;
     log_net_r := 0; log_charging := false;
     log_top_cpu := repeat {| pid := 1; name := "init"; cpu := 0; mem := 0 |} 11;
     log_top_mem := [] |}.

(** ** The storage directory (lines 17-24)

    A path is the list of its components, innermost first: [home / "Desktop"]
    is ["Desktop" :: home] and the root is [[]].  The file system is a finite
    map from the paths that exist to what is there; the root is always a
    directory.  [os.mkdir] and [pathlib.Path.mkdir] follow CPython: a missing
    parent is a [FileNotFoundError], a parent that is a file a
    [NotADirectoryError], an existing path a [FileExistsError]; with
    [parents=True] a missing parent is created first, with [exist_ok=True] an
    [OSError] is dropped when the path is a directory afterwards.  Access
    rights are not modelled: no call fails for lack of permission. *)
Module Storage.

Inductive node : Type := File | Dir.

Abbreviation path := (list string).

Definition DATA_FOLDER_NAME : string := "Telemetry_Data".

(** What is at [p], if anything. *)
Definition node_at (fs : gmap (list string) node) (p : path) : option node :=
  match p with
  | [] => Some Dir
  | _ => fs !! p
  end.

(** [p.exists()] *)
Definition exists_ (fs : gmap (list string) node) (p : path) : bool :=
  match node_at fs p with Some _ => true | None => false end.

(** [p.is_dir()] *)
Definition is_dir (fs : gmap (list string) node) (p : path) : bool :=
  match node_at fs p with Some Dir => true | _ => false end.

Definition FileNotFoundError : exn := Exception "FileNotFoundError".
Definition FileExistsError : exn := Exception "FileExistsError".
Definition NotADirectoryError : exn := Exception "NotADirectoryError".

(** [except FileNotFoundError] *)
Definition is_FileNotFoundError (e : exn) : bool :=
  match e with
  | Exception msg => String.eqb msg "FileNotFoundError"
  | KeyboardInterrupt => false
  end.

(** [os.mkdir(p)] *)
Definition os_mkdir (p : path) (fs : gmap (list string) node)
    : result unit * gmap (list string) node :=
  match p with
  | [] => (Raise FileExistsError, fs)
  | _ :: parent =>
      match node_at fs parent with
      | None => (Raise FileNotFoundError, fs)
      | Some File => (Raise NotADirectoryError, fs)
      | Some Dir =>
          match fs !! p with
          | Some _ => (Raise FileExistsError, fs)
          | None => (Ok tt, <[p := Dir]> fs)
          end
      end
  end.

(** [p.mkdir(parents=False, exist_ok=True)] *)
Definition mkdir_exist_ok (p : path) (fs : gmap (list string) node)
    : result unit * gmap (list string) node :=
  match os_mkdir p fs with
  | (Ok _, fs') => (Ok tt, fs')
  | (Raise e, fs') =>
      if is_FileNotFoundError e then (Raise e, fs')
      else if is_dir fs' p then (Ok tt, fs') else (Raise e, fs')
  end.

(** [p.mkdir(parents=True, exist_ok=True)] *)
Fixpoint mkdir_parents (p : path) (fs : gmap (list string) node)
    : result unit * gmap (list string) node :=
  match os_mkdir p fs with
  | (Ok _, fs') => (Ok tt, fs')
  | (Raise e, fs') =>
      if is_FileNotFoundError e then
        match p with
        | [] => (Raise e, fs')
        | _ :: parent =>
            match mkdir_parents parent fs' with
            | (Ok _, fs1) => mkdir_exist_ok p fs1
            | (Raise e1, fs1) => (Raise e1, fs1)
            end
        end
      else if is_dir fs' p then (Ok tt, fs') else (Raise e, fs')
  end.

(** [get_storage_directory()], with [Path.home()] and the file system as
    inputs: the folder it returns and the file system it leaves. *)
Definition get_storage_directory (home : path) (fs : gmap (list string) node)
    : result path * gmap (list string) node :=
  let desktop := "Desktop" :: home in
  let target := if exists_ fs desktop then desktop else home in
  let folder := DATA_FOLDER_NAME :: target in
  match mkdir_parents folder fs with
  | (Ok _, fs') => (Ok folder, fs')
  | (Raise e, fs') => (Raise e, fs')
  end.

(** A file system is a tree: whatever exists has a directory as parent. *)
Definition tree (fs : gmap (list string) node) : Prop :=
  forall p k, fs !! p = Some k ->
    match p with
    | [] => False
    | _ :: parent => node_at fs parent = Some Dir
    end.

(** A home directory with a Desktop folder, a home directory without, and
    one where [Desktop] is a regular file. *)
Definition home : path := ["user"; "home"].

Definition fs_with_desktop : gmap (list string) node :=
  <[ "Desktop" :: home := Dir ]> (<[ home := Dir ]> (<[ ["home"] := Dir ]> ∅)).

Definition fs_without_desktop : gmap (list string) node :=
  <[ home := Dir ]> (<[ ["home"] := Dir ]> ∅).


End Storage.

(** ** The hardware label (lines 27-45)

    Text is a string of ASCII characters. *)

(** [s.split("\n")] *)
Fixpoint split_lines (s : string) : list string :=
  match s with
  | EmptyString => [EmptyString]
  | String c s' =>
      if Ascii.eqb c "010" then EmptyString :: split_lines s'
      else match split_lines s' with
           | [] => [String c EmptyString]
           | l :: ls => String c l :: ls
           end
  end.

(** [c.isspace()] on ASCII: tab, line feed, vertical tab, form feed,
    carriage return, the four separators 28-31 and the space. *)
Definition is_space (c : ascii) : bool :=
  let n := nat_of_ascii c in
  (Nat.leb 9 n && Nat.leb n 13) || (Nat.leb 28 n && Nat.leb n 32).

Fixpoint lstrip (s : string) : string :=
  match s with
  | EmptyString => EmptyString
  | String c s' => if is_space c then lstrip s' else s
  end.

Fixpoint rstrip (s : string) : string :=
  match s with
  | EmptyString => EmptyString
  | String c s' =>
      match rstrip s' with
      | EmptyString => if is_space c then EmptyString else String c EmptyString
      | r => String c r
      end
  end.

(** [s.strip()] *)
Definition strip (s : string) : string := rstrip (lstrip s).

(** [s.replace(old, new)] for a non-empty [old]: scan from the left; where
    [old] starts, emit [new] and skip the rest of the match. *)
Fixpoint replace_from (old new : string) (skip : nat) (s : string) : string :=
  match s with
  | EmptyString => EmptyString
  | String c s' =>
      match skip with
      | S k => replace_from old new k s'
      | O =>
          if String.prefix old s
          then new +:+ replace_from old new (String.length old - 1) s'
          else String c (replace_from old new 0 s')
      end
  end.

Definition replace (old new s : string) : string := replace_from old new 0 s.

(** The CPU name of lines 29-41.  On Windows it is the stripped second line
    of what [wmic cpu get name] prints; elsewhere [platform.processor()] or,
    when that is empty, ["UnknownCPU"].  Any exception on the way (also the
    [IndexError] of a missing second line) is swallowed by the bare
    [except: pass] and leaves ["UnknownCPU"]. *)
Definition cpu_name (win32 : bool) (wmic_stdout processor : result string) : string :=
  if win32 then
    match wmic_stdout with
    | Raise _ => "UnknownCPU"
    | Ok stdout =>
        match nth_error (split_lines stdout) 1 with
        | Some line => strip line
        | None => "UnknownCPU"
        end
    end
  else
    match processor with
    | Raise _ => "UnknownCPU"
    | Ok EmptyString => "UnknownCPU"
    | Ok name => name
    end.

(** [get_hardware_label()], with the platform, the two CPU probes and
    [psutil.virtual_memory().total] as inputs. *)
Definition get_hardware_label (win32 : bool) (wmic_stdout processor : result string)
    (total : result Z) : result string :=
  let cpu := cpu_name win32 wmic_stdout processor in
  match total with
  | Raise e => Raise e
  | Ok total =>
      let ram := round_half_even (inject_Z total / inject_Z (1024 ^ 3)) in
      let label := cpu +:+ "-RAM" +:+ str_int ram +:+ "GB" in
      Ok (replace "(TM)" "" (replace "(R)" "" (replace " " "_" label)))
  end.

(** The characters of a string. *)
Definition chars (s : string) : list ascii := list_ascii_of_string s.

(** The CPU probe found no name: it raised, or printed no second line, or
    returned the empty string. *)
Definition probe_failed (win32 : bool) (wmic_stdout processor : result string) : Prop :=
  if win32 then
    match wmic_stdout with
    | Raise _ => True
    | Ok stdout => forall c, In c (chars stdout) -> c <> "010"%char
    end
  else
    match processor with
    | Raise _ => True
    | Ok name => name = EmptyString
    end.

(** What [wmic cpu get name] prints on a typical machine. *)
Definition wmic_example : string :=
  "Name  " +:+ String "013" (String "010" EmptyString)
  +:+ "Intel(R) Core(TM) i7-9750H CPU @ 2.60GHz  "
  +:+ String "013" (String "010" EmptyString).

(** ** The ranking step with absent values (lines 150-163)

    [process_iter(["pid", "name", "memory_percent"])] prefetches [p.info]
    with psutil's default [ad_value=None]: a name or a memory share that
    psutil is denied access to, or that a zombie process no longer has, is
    stored as [None], and no exception is raised.  The definitions above take
    every prefetched value to be present; this module keeps the absent ones.
    The [<] of the sort raises [TypeError] as soon as an operand is [None]. *)
Module RankStep.

(** A process as the iterator yields it; [None] stands for Python's [None]. *)
Record handle : Type := {
  h_pid : Z;
  h_name : option string;
  h_memory_percent : option Q;
  h_cpu_percent : result Q
}.

(** The dict of lines 153-158. *)
Record pdict : Type := {
  d_pid : Z;
  d_name : option string;
  d_cpu : Q;
  d_mem : option Q
}.

(** Lines 151-160: only [p.cpu_percent(None)] can raise inside the [try]. *)
Fixpoint collect (handles : list handle) : list pdict :=
  match handles with
  | [] => []
  | p :: rest =>
      match h_cpu_percent p with
      | Ok c =>
          {| d_pid := h_pid p; d_name := h_name p; d_cpu := c;
             d_mem := h_memory_percent p |} :: collect rest
      | Raise _ => collect rest
      end
  end.

(** ['<' not supported between instances of 'NoneType' and 'float'], or with
    the operand types the other way round, or both [NoneType]. *)
Definition TypeError : exn := Exception "TypeError".

(** [a < b] on sort keys that are a [float] or [None]. *)
Definition lt (a b : option Q) : result bool :=
  match a, b with
  | Some x, Some y => Ok (match (x ?= y)%Q with Lt => true | _ => false end)
  | _, _ => Raise TypeError
  end.

Section Sorted.
Context {A : Type} (key : A -> option Q).

Fixpoint insert_asc (x : A) (l : list A) : result (list A) :=
  match l with
  | [] => Ok [x]
  | y :: l' =>
      match lt (key y) (key x) with
      | Raise e => Raise e
      | Ok true =>
          match insert_asc x l' with
          | Ok s => Ok (y :: s)
          | Raise e => Raise e
          end
      | Ok false => Ok (x :: y :: l')
      end
  end.

Fixpoint sort_asc (l : list A) : result (list A) :=
  match l with
  | [] => Ok []
  | x :: l' =>
      match sort_asc l' with
      | Ok s => insert_asc x s
      | Raise e => Raise e
      end
  end.

(** [sorted(l, key=key, reverse=reverse)]; an exception of a comparison
    leaves [sorted]. *)
Definition sorted (reverse : bool) (l : list A) : result (list A) :=
  if reverse then
    match sort_asc (rev l) with
    | Ok s => Ok (rev s)
    | Raise e => Raise e
    end
  else sort_asc l.

(** The key of [x] is a number. *)
Definition has_key (x : A) : bool :=
  match key x with Some _ => true | None => false end.

(** The key of [x] where it is a number. *)
Definition value (x : A) : Q := default 0%Q (key x).
End Sorted.

(** Lines 150-163: the enumeration, then the two rankings. *)
Definition rank (handles : list handle) : result (list pdict * list pdict) :=
  let processes := collect handles in
  match sorted (fun x => Some (d_cpu x)) true processes with
  | Raise e => Raise e
  | Ok by_cpu =>
      match sorted d_mem true processes with
      | Raise e => Raise e
      | Ok by_mem => Ok (top10 by_cpu, top10 by_mem)
      end
  end.

(** A handle and a process dict whose prefetched values are all present. *)
Definition of_handle (p : proc_handle) : handle :=
  {| h_pid := p_pid p; h_name := Some (info_name p);
     h_memory_percent := Some (info_memory_percent p);
     h_cpu_percent := p_cpu_percent p |}.

Definition of_process (p : process) : pdict :=
  {| d_pid := pid p; d_name := Some (name p); d_cpu := cpu p; d_mem := Some (mem p) |}.

(** Two readable processes; psutil was denied the memory share of the
    first. *)
Definition denied_handles : list handle :=
  [ {| h_pid := 4; h_name := Some "System"; h_memory_percent := None;
       h_cpu_percent := Ok 0%Q |};
    {| h_pid := 812; h_name := Some "python"; h_memory_percent := Some (3 # 2)%Q;
       h_cpu_percent := Ok 2%Q |} ].

End RankStep.

(* ================================================================= *)
(** * Properties *)

(** ** The stable descending sort *)

Section SortFacts.
Context {A : Type} (key : A -> Q).

Lemma key_lt_true (x y : A) : key_lt key x y = true <-> (key x < key y)%Q.
Proof.
  unfold key_lt. rewrite Qlt_alt.
  destruct (key x ?= key y)%Q; split; congruence.
Qed.

Lemma key_lt_false (x y : A) : key_lt key x y = false <-> (key y <= key x)%Q.
Proof.
  rewrite <- not_true_iff_false, key_lt_true. split.
  - apply Qnot_lt_le.
  - intros Hle Hlt. exact (Qlt_not_le _ _ Hlt Hle).
Qed.

Lemma insert_asc_perm (x : A) (l : list A) : Permutation (insert_asc key x l) (x :: l).
Proof.
  induction l as [|y l IH]; simpl; [reflexivity|].
  destruct (key_lt key y x); [|reflexivity].
  rewrite IH. apply perm_swap.
Qed.

Lemma sort_asc_perm (l : list A) : Permutation (sort_asc key l) l.
Proof.
  induction l as [|x l IH]; simpl; [reflexivity|].
  rewrite insert_asc_perm. now constructor.
Qed.

Lemma insert_asc_sorted (x : A) (l : list A) :
  StronglySorted (ascending key) l -> StronglySorted (ascending key) (insert_asc key x l).
Proof.
  induction l as [|y l IH]; simpl; intros Hs.
  - repeat constructor.
  - apply StronglySorted_inv in Hs as [Hl Hy].
    destruct (key_lt key y x) eqn:Hlt.
    + constructor; [auto|].
      apply key_lt_true in Hlt.
      eapply Permutation_Forall; [symmetry; apply insert_asc_perm|].
      constructor; [apply Qlt_le_weak, Hlt | exact Hy].
    + apply key_lt_false in Hlt.
      constructor; [now constructor|].
      constructor; [exact Hlt|].
      eapply Forall_impl; [exact Hy|].
      intros z Hz. unfold ascending in *. eapply Qle_trans; eauto.
Qed.

Lemma sort_asc_sorted (l : list A) : StronglySorted (ascending key) (sort_asc key l).
Proof.
  induction l as [|x l IH]; simpl; [constructor|].
  now apply insert_asc_sorted.
Qed.

Lemma insert_asc_filter (v : Q) (x : A) (l : list A) :
  List.filter (same_key key v) (insert_asc key x l)
  = List.filter (same_key key v) (x :: l).
Proof.
  induction l as [|y l IH]; [reflexivity|].
  cbn [insert_asc]. destruct (key_lt key y x) eqn:Hlt; [|reflexivity].
  cbn [List.filter] in *. rewrite IH.
  destruct (same_key key v y) eqn:Hy, (same_key key v x) eqn:Hx; try reflexivity.
  exfalso. apply key_lt_true in Hlt.
  unfold same_key in *. apply Qeq_bool_iff in Hy, Hx.
  rewrite Hy, Hx in Hlt. exact (Qlt_irrefl _ Hlt).
Qed.

Lemma sort_asc_filter (v : Q) (l : list A) :
  List.filter (same_key key v) (sort_asc key l) = List.filter (same_key key v) l.
Proof.
  induction l as [|x l IH]; [reflexivity|].
  cbn [sort_asc]. rewrite insert_asc_filter. cbn [List.filter]. now rewrite IH.
Qed.

Lemma StronglySorted_snoc (R : A -> A -> Prop) (l : list A) (x : A) :
  StronglySorted R l -> Forall (fun y => R y x) l -> StronglySorted R (l ++ [x]).
Proof.
  induction 1 as [|y l Hs IH Hy]; intros Hx; simpl.
  - repeat constructor.
  - apply Forall_cons_iff in Hx as [Hyx Hx]. constructor; [auto|].
    apply Forall_app. split; [exact Hy | now constructor].
Qed.

Lemma StronglySorted_rev (R : A -> A -> Prop) (l : list A) :
  StronglySorted R l -> StronglySorted (fun x y => R y x) (rev l).
Proof.
  induction 1 as [|x l Hs IH Hx]; simpl; [constructor|].
  apply StronglySorted_snoc; [exact IH|].
  apply List.Forall_forall. intros y Hy. apply in_rev in Hy.
  rewrite List.Forall_forall in Hx. now apply Hx.
Qed.

Lemma filter_rev (P : A -> bool) (l : list A) :
  List.filter P (rev l) = rev (List.filter P l).
Proof.
  induction l as [|x l IH]; [reflexivity|].
  simpl. rewrite List.filter_app, IH. simpl.
  destruct (P x); simpl; [reflexivity | now rewrite app_nil_r].
Qed.

(** [sorted(l, key=key, reverse=True)] is a stable descending sort of [l]. *)
Lemma sorted_reverse_stable (l : list A) :
  stable_desc_sort_of key l (sorted key true l).
Proof.
  unfold sorted. split; [|split].
  - rewrite <- Permutation_rev, sort_asc_perm. symmetry. apply Permutation_rev.
  - apply (StronglySorted_rev (ascending key)), sort_asc_sorted.
  - intros v. rewrite filter_rev, sort_asc_filter, filter_rev. apply rev_involutive.
Qed.
End SortFacts.

Section StableSortUnique.
Context {A : Type} (key : A -> Q).

Lemma same_key_refl (x : A) : same_key key (key x) x = true.
Proof. unfold same_key. apply Qeq_bool_iff. reflexivity. Qed.

Lemma filter_head_in (v : Q) (x : A) (l r : list A) :
  List.filter (same_key key v) l = x :: r -> In x l /\ same_key key v x = true.
Proof.
  intros H. apply List.filter_In. rewrite H. now left.
Qed.

Lemma sorted_head_max (x y : A) (l : list A) :
  StronglySorted (descending key) (x :: l) -> In y (x :: l) -> (key y <= key x)%Q.
Proof.
  intros Hs Hin. apply StronglySorted_inv in Hs as [_ Hx].
  destruct Hin as [<-|Hin]; [apply Qle_refl|].
  rewrite List.Forall_forall in Hx. now apply Hx.
Qed.

(** Two descending lists with the same elements of every key, in the same
    order, are the same list. *)
Lemma stable_desc_unique (l1 l2 : list A) :
  StronglySorted (descending key) l1 ->
  StronglySorted (descending key) l2 ->
  (forall v, List.filter (same_key key v) l1 = List.filter (same_key key v) l2) ->
  l1 = l2.
Proof.
  revert l2. induction l1 as [|a l1 IH]; intros l2 H1 H2 Hf.
  - destruct l2 as [|b l2]; [reflexivity|].
    specialize (Hf (key b)). cbn [List.filter] in Hf.
    rewrite same_key_refl in Hf. discriminate.
  - destruct l2 as [|b l2].
    { specialize (Hf (key a)). cbn [List.filter] in Hf.
      rewrite same_key_refl in Hf. discriminate. }
    assert (Hab : (key a <= key b)%Q).
    { pose proof (Hf (key a)) as Ha.
      replace (List.filter (same_key key (key a)) (a :: l1))
        with (a :: List.filter (same_key key (key a)) l1) in Ha
        by (cbn [List.filter]; now rewrite same_key_refl).
      symmetry in Ha.
      apply filter_head_in in Ha as [Hin _]. now apply (sorted_head_max b a l2). }
    assert (Hba : (key b <= key a)%Q).
    { pose proof (Hf (key b)) as Hb.
      replace (List.filter (same_key key (key b)) (b :: l2))
        with (b :: List.filter (same_key key (key b)) l2) in Hb
        by (cbn [List.filter]; now rewrite same_key_refl).
      apply filter_head_in in Hb as [Hin _]. now apply (sorted_head_max a b l1). }
    assert (Hka : same_key key (key a) b = true).
    { apply Qeq_bool_iff. now apply Qle_antisym. }
    assert (a = b) as <-.
    { specialize (Hf (key a)). cbn [List.filter] in Hf.
      rewrite same_key_refl, Hka in Hf. congruence. }
    f_equal. apply IH.
    + now apply StronglySorted_inv in H1 as [? _].
    + now apply StronglySorted_inv in H2 as [? _].
    + intros v. specialize (Hf v). cbn [List.filter] in Hf.
      destruct (same_key key v a); congruence.
Qed.

Lemma stable_desc_sort_unique (l s : list A) :
  stable_desc_sort_of key l s -> s = sorted key true l.
Proof.
  intros (_ & Hs & Hf).
  destruct (sorted_reverse_stable key l) as (_ & Hs' & Hf').
  apply stable_desc_unique; [assumption..|].
  intros v. now rewrite Hf, Hf'.
Qed.

Lemma StronglySorted_adjacent (s : list A) :
  StronglySorted (descending key) s -> adjacent_desc key s.
Proof.
  induction 1 as [|x s Hs IH Hx]; intros i a b Ha Hb.
  - discriminate.
  - destruct i as [|i]; simpl in *.
    + injection Ha as <-. destruct s as [|y s]; [discriminate|].
      injection Hb as <-. now apply Forall_cons_iff in Hx as [? _].
    + eapply IH; eauto.
Qed.

Lemma adjacent_desc_take (n : nat) (s : list A) :
  adjacent_desc key s -> adjacent_desc key (take n s).
Proof.
  intros H i x y Hx Hy.
  apply lookup_take_Some in Hx as [Hx _]. apply lookup_take_Some in Hy as [Hy _].
  eauto.
Qed.
End StableSortUnique.

(** ** Ranking *)

Lemma collect_processes_omap (handles : list proc_handle) :
  collect_processes handles = omap observe handles.
Proof.
  induction handles as [|p rest IH]; [reflexivity|].
  cbn [collect_processes omap list_omap]. unfold observe at 1.
  destruct (p_cpu_percent p); cbn; now rewrite IH.
Qed.

Lemma collect_processes_length (handles : list proc_handle) :
  length (collect_processes handles) + failures handles = length handles.
Proof.
  unfold failures. induction handles as [|p rest IH]; [reflexivity|].
  cbn [collect_processes List.filter]. destruct (p_cpu_percent p); cbn [length]; lia.
Qed.

Lemma sorted_reverse_length {A : Type} (key : A -> Q) (l : list A) :
  length (sorted key true l) = length l.
Proof.
  apply Permutation_length. now destruct (sorted_reverse_stable key l) as [? _].
Qed.

Lemma top10_length {A : Type} (l : list A) : length (top10 l) = Nat.min (length l) 10.
Proof. unfold top10. rewrite length_take. lia. Qed.

Lemma top10_prefix {A : Type} (l : list A) : top10 l ++ drop 10 l = l.
Proof. apply take_drop. Qed.

Lemma top10_of_stable_sort {A : Type} (key : A -> Q) (l s : list A) :
  stable_desc_sort_of key l s ->
  top10 (sorted key true l) = take (Nat.min (length l) 10) s.
Proof.
  intros Hs. rewrite <- (stable_desc_sort_unique key l s Hs).
  destruct Hs as (Hp & _). apply Permutation_length in Hp.
  unfold top10. destruct (Nat.min_spec (length l) 10) as [[Hlt ->]|[Hge ->]].
  - rewrite !take_ge by lia. reflexivity.
  - reflexivity.
Qed.

Lemma top10_sorted_adjacent {A : Type} (key : A -> Q) (l : list A) :
  adjacent_desc key (top10 (sorted key true l)).
Proof.
  apply adjacent_desc_take, StronglySorted_adjacent.
  now destruct (sorted_reverse_stable key l) as (_ & ? & _).
Qed.

(** C3: [top_cpu] is the first [min(n, 10)] elements of the stable descending
    sort of the process list by [cpu], and [top_mem] likewise by [mem]: such a
    sort exists, any two agree, adjacent ranked elements are in descending
    order, and equal values keep their enumeration order. *)
Theorem ranking_is_top10_of_stable_descending_sort (processes : list process) :
  let n := length processes in
  (exists s, stable_desc_sort_of cpu processes s) /\
  (exists s, stable_desc_sort_of mem processes s) /\
  (forall s, stable_desc_sort_of cpu processes s ->
             rank_cpu processes = take (Nat.min n 10) s) /\
  (forall s, stable_desc_sort_of mem processes s ->
             rank_mem processes = take (Nat.min n 10) s) /\
  adjacent_desc cpu (rank_cpu processes) /\
  adjacent_desc mem (rank_mem processes).
Proof.
  cbv zeta. unfold rank_cpu, rank_mem. repeat split.
  - exists (sorted cpu true processes). apply sorted_reverse_stable.
  - exists (sorted mem true processes). apply sorted_reverse_stable.
  - apply top10_of_stable_sort.
  - apply top10_of_stable_sort.
  - apply top10_sorted_adjacent.
  - apply top10_sorted_adjacent.
Qed.

Lemma ranking_size_bound_aux (processes : list process) :
  length (rank_cpu processes) = Nat.min (length processes) 10 /\
  length (rank_mem processes) = Nat.min (length processes) 10.
Proof.
  unfold rank_cpu, rank_mem.
  now rewrite !top10_length, !sorted_reverse_length.
Qed.

(** C4: both rankings have length [min(n, 10)] and are drawn from the one
    process list: each is the front of a rearrangement of it. *)
Theorem ranking_size_bound (processes : list process) :
  let n := length processes in
  length (rank_cpu processes) = Nat.min n 10 /\
  length (rank_mem processes) = Nat.min n 10 /\
  (exists rest, Permutation (rank_cpu processes ++ rest) processes) /\
  (exists rest, Permutation (rank_mem processes ++ rest) processes).
Proof.
  cbv zeta. unfold rank_cpu, rank_mem.
  rewrite !top10_length, !sorted_reverse_length. repeat split.
  - exists (drop 10 (sorted cpu true processes)). rewrite top10_prefix.
    now destruct (sorted_reverse_stable cpu processes) as [? _].
  - exists (drop 10 (sorted mem true processes)). rewrite top10_prefix.
    now destruct (sorted_reverse_stable mem processes) as [? _].
Qed.

(** ** One tick *)

Lemma kb_per_s_ok (prev curr interval : Z) :
  interval <> 0%Z -> kb_per_s prev curr interval = Ok (rate prev curr interval).
Proof.
  intros H. unfold kb_per_s, truediv, rate.
  destruct (Z.eqb_spec interval 0); [contradiction | reflexivity].
Qed.

Ltac split_reads H :=
  unfold tick_reads in H;
  repeat match type of H with
         | match ?r with Ok _ => _ | Raise _ => _ end = _ =>
             let E := fresh "E" in destruct r eqn:E; try discriminate H
         end.

(** A tick whose whole-system reads all succeed appends exactly one sample,
    whatever the per-process reads do. *)
Lemma tick_ok (interval samples : Z) (i : nat) (src : tick_source) (rd : readings)
    (f : frame) :
  interval <> 0%Z ->
  tick_reads src = Ok rd ->
  process_iter_end src = None ->
  tick interval samples i src f
  = (Ok tt,
     {| logs := logs f ++ [assemble interval (net_prev f) (disk_prev f) src rd];
        net_prev := rd_net rd; disk_prev := rd_disk rd;
        stdout := stdout f ++ [progress samples i]; writes := writes f |}).
Proof.
  intros Hi Hrd Hend. split_reads Hrd. injection Hrd as <-.
  unfold tick, bind, print, call, get, set_prev, logs_append, enumerate_processes.
  cbn [logs net_prev disk_prev stdout writes].
  rewrite E, E0, E1, E2, E3, !kb_per_s_ok, Hend by assumption.
  reflexivity.
Qed.

(** A tick in which a whole-system read or the process iterator raises
    appends nothing and lets the exception escape. *)
Lemma tick_raise (interval samples : Z) (i : nat) (src : tick_source) (e : exn)
    (f : frame) :
  interval <> 0%Z ->
  tick_fault src = Some e ->
  exists f', tick interval samples i src f = (Raise e, f') /\
             logs f' = logs f /\ writes f' = writes f /\
             stdout f' = stdout f ++ [progress samples i].
Proof.
  intros Hi Hf. unfold tick_fault in Hf.
  unfold tick, bind, print, call, get, set_prev, logs_append, enumerate_processes.
  cbn [logs net_prev disk_prev stdout writes].
  destruct (tick_reads src) as [rd|e'] eqn:Hrd.
  - split_reads Hrd. rewrite !kb_per_s_ok, Hf by assumption.
    eexists; repeat split; reflexivity.
  - injection Hf as ->. unfold tick_reads in Hrd.
    destruct (sensors_battery src);
      [|injection Hrd as ->; eexists; repeat split; reflexivity].
    destruct (cpu_percent_blocking src);
      [|injection Hrd as ->; eexists; repeat split; reflexivity].
    destruct (virtual_memory src);
      [|injection Hrd as ->; eexists; repeat split; reflexivity].
    destruct (net_io_counters src);
      [|injection Hrd as ->; eexists; repeat split; reflexivity].
    destruct (disk_io_counters src);
      [discriminate|injection Hrd as ->; eexists; repeat split; reflexivity].
Qed.

(** ** Rates *)

Lemma inject_Z_pos (z : Z) : (0 < z)%Z -> (0 < inject_Z z)%Q.
Proof. intros H. unfold Qlt. simpl. lia. Qed.

Lemma scale_pos (interval : Z) :
  (0 < interval)%Z -> (0 < / 1024 * / inject_Z interval)%Q.
Proof.
  intros H. apply Qmult_lt_0_compat.
  - reflexivity.
  - apply Qinv_lt_0_compat, inject_Z_pos, H.
Qed.

Lemma rate_scale (prev curr interval : Z) :
  (rate prev curr interval == inject_Z (curr - prev) * (/ 1024 * / inject_Z interval))%Q.
Proof. unfold rate, Qdiv. now rewrite Qmult_assoc. Qed.

Lemma rate_exact (prev curr interval : Z) :
  (0 < interval)%Z ->
  (rate prev curr interval * 1024 * inject_Z interval == inject_Z curr - inject_Z prev)%Q.
Proof.
  intros H. unfold rate, Z.sub. rewrite inject_Z_plus, inject_Z_opp.
  assert (~ inject_Z interval == 0)%Q.
  { intros E. apply inject_Z_pos in H. rewrite E in H. discriminate. }
  field. assumption.
Qed.

Lemma rate_nonneg (prev curr interval : Z) :
  (0 < interval)%Z -> (prev <= curr)%Z -> (0 <= rate prev curr interval)%Q.
Proof.
  intros Hi Hle. rewrite rate_scale. apply Qmult_le_0_compat.
  - unfold Qle. simpl. lia.
  - apply Qlt_le_weak, scale_pos, Hi.
Qed.

Lemma rate_negative (prev curr interval : Z) :
  (0 < interval)%Z -> (curr < prev)%Z -> (rate prev curr interval < 0)%Q.
Proof.
  intros Hi Hlt. rewrite rate_scale.
  assert (Hd : (inject_Z (curr - prev) < 0)%Q) by (unfold Qlt; simpl; lia).
  pose proof (Qmult_lt_compat_r _ _ _ (scale_pos interval Hi) Hd) as H.
  now rewrite Qmult_0_l in H.
Qed.

(** Rounding to two decimals moves a value by at most 0.005. *)
Lemma round_half_even_near (y : Q) :
  (Qabs (inject_Z (round_half_even y) - y) <= 1 # 2)%Q.
Proof.
  unfold round_half_even.
  pose proof (Qfloor_le y) as Hlo. pose proof (Qlt_floor y) as Hhi.
  set (fl := Qfloor y) in *. rewrite inject_Z_plus in Hhi.
  change (inject_Z 1) with 1%Q in Hhi.
  apply Qabs_Qle_condition.
  destruct (y - inject_Z fl ?= 1 # 2)%Q eqn:Hc.
  - apply Qeq_alt in Hc.
    destruct (Z.even fl); [|rewrite inject_Z_plus; change (inject_Z 1) with 1%Q];
      split; lra.
  - apply Qlt_alt in Hc. split; lra.
  - apply Qgt_alt in Hc. rewrite inject_Z_plus. change (inject_Z 1) with 1%Q.
    split; lra.
Qed.

Lemma round2_near (x : Q) : (Qabs (round2 x - x) <= 1 # 200)%Q.
Proof.
  unfold round2. pose proof (round_half_even_near (x * 100)) as H.
  apply Qabs_Qle_condition in H as [H1 H2]. apply Qabs_Qle_condition.
  set (r := inject_Z (round_half_even (x * 100))) in *.
  unfold Qdiv. change (/ 100)%Q with (1 # 100)%Q. split; lra.
Qed.

Lemma kb_per_s_exact (prev curr interval : Z) :
  (0 < interval)%Z ->
  exists r, kb_per_s prev curr interval = Ok r /\ exact_rate r prev curr interval.
Proof.
  intros H. exists (rate prev curr interval). split.
  - apply kb_per_s_ok. lia.
  - split; [reflexivity|]. split; [now apply rate_exact|].
    split; intros; [now apply rate_nonneg | now apply rate_negative].
Qed.

(** C1: in every tick, each of the four rates computed from the previous and
    the current counter readings is [(curr - prev) / 1024 / interval]: it
    satisfies [rate * 1024 * interval = curr - prev], is non-negative when
    [curr >= prev], and is the negative quotient, not zero, when
    [curr < prev].  The sample stores each rate rounded to two decimals,
    within 0.005 of it. *)
Theorem rate_delta_correct (interval samples : Z) (i : nat) (src : tick_source)
    (rd : readings) (f : frame) :
  (0 < interval)%Z ->
  tick_reads src = Ok rd ->
  process_iter_end src = None ->
  exists (disk_r disk_w net_sent net_recv : Q) (s : sample) (f' : frame),
    kb_per_s (read_bytes (disk_prev f)) (read_bytes (rd_disk rd)) interval = Ok disk_r /\
    kb_per_s (write_bytes (disk_prev f)) (write_bytes (rd_disk rd)) interval = Ok disk_w /\
    kb_per_s (bytes_sent (net_prev f)) (bytes_sent (rd_net rd)) interval = Ok net_sent /\
    kb_per_s (bytes_recv (net_prev f)) (bytes_recv (rd_net rd)) interval = Ok net_recv /\
    exact_rate disk_r (read_bytes (disk_prev f)) (read_bytes (rd_disk rd)) interval /\
    exact_rate disk_w (write_bytes (disk_prev f)) (write_bytes (rd_disk rd)) interval /\
    exact_rate net_sent (bytes_sent (net_prev f)) (bytes_sent (rd_net rd)) interval /\
    exact_rate net_recv (bytes_recv (net_prev f)) (bytes_recv (rd_net rd)) interval /\
    tick interval samples i src f = (Ok tt, f') /\
    logs f' = logs f ++ [s] /\
    log_disk_r s = round2 disk_r /\ log_disk_w s = round2 disk_w /\
    log_net_s s = round2 net_sent /\ log_net_r s = round2 net_recv /\
    (Qabs (log_disk_r s - disk_r) <= 1 # 200)%Q /\
    (Qabs (log_disk_w s - disk_w) <= 1 # 200)%Q /\
    (Qabs (log_net_s s - net_sent) <= 1 # 200)%Q /\
    (Qabs (log_net_r s - net_recv) <= 1 # 200)%Q.
Proof.
  intros Hi Hrd Hend.
  assert (Hne : interval <> 0%Z) by lia.
  destruct (kb_per_s_exact (read_bytes (disk_prev f)) (read_bytes (rd_disk rd)) interval Hi)
    as (dr & Edr & Hdr).
  destruct (kb_per_s_exact (write_bytes (disk_prev f)) (write_bytes (rd_disk rd)) interval Hi)
    as (dw & Edw & Hdw).
  destruct (kb_per_s_exact (bytes_sent (net_prev f)) (bytes_sent (rd_net rd)) interval Hi)
    as (ns & Ens & Hns).
  destruct (kb_per_s_exact (bytes_recv (net_prev f)) (bytes_recv (rd_net rd)) interval Hi)
    as (nr & Enr & Hnr).
  exists dr, dw, ns, nr. eexists. eexists.
  rewrite (tick_ok interval samples i src rd f Hne Hrd Hend).
  cbn [logs].
  rewrite kb_per_s_ok in Edr, Edw, Ens, Enr by assumption.
  injection Edr as <-. injection Edw as <-. injection Ens as <-. injection Enr as <-.
  repeat (split; [first [reflexivity | assumption | apply round2_near
                         | now apply kb_per_s_ok]|]).
  apply round2_near.
Qed.


Lemma rate_delta_correct_witness :
  exists (s : sample) (f' : frame),
    tick 5 2 0 (stub_tick 0) empty_frame = (Ok tt, f') /\
    logs f' = [s] /\ (log_disk_r s == 2 # 10)%Q.
Proof.
  destruct (rate_delta_correct 5 2 0 (stub_tick 0) (stub_readings 0) empty_frame)
    as (dr & dw & ns & nr & s & f' & _ & _ & _ & _ & (Hdr & _) & _ & _ & _
        & Ht & Hl & Hs & _); [lia | reflexivity | reflexivity |].
  exists s, f'. split; [exact Ht|]. split; [exact Hl|].
  rewrite Hs, Hdr. reflexivity.
Defined.

(** ** The ranking step with absent values *)

Section RankStepFacts.
Context {A : Type} (key : A -> option Q).

Lemma forallb_rev_eq (f : A -> bool) (l : list A) : forallb f (rev l) = forallb f l.
Proof.
  induction l as [|x l IH]; [reflexivity|].
  cbn [rev forallb]. rewrite forallb_app, IH. cbn [forallb].
  rewrite andb_true_r. apply andb_comm.
Qed.

Lemma has_key_insert_asc (x : A) (l : list A) :
  forallb (RankStep.has_key key) (insert_asc (RankStep.value key) x l)
  = RankStep.has_key key x && forallb (RankStep.has_key key) l.
Proof.
  induction l as [|y l IH]; [reflexivity|].
  cbn [insert_asc]. destruct (key_lt _ y x); cbn [forallb]; [|reflexivity].
  rewrite IH. destruct (RankStep.has_key key x), (RankStep.has_key key y); reflexivity.
Qed.

Lemma has_key_sort_asc (l : list A) :
  forallb (RankStep.has_key key) (sort_asc (RankStep.value key) l)
  = forallb (RankStep.has_key key) l.
Proof.
  induction l as [|x l IH]; [reflexivity|].
  cbn [sort_asc forallb]. now rewrite has_key_insert_asc, IH.
Qed.

Lemma sort_asc_length (l : list A) :
  length (sort_asc (RankStep.value key) l) = length l.
Proof. apply Permutation_length, sort_asc_perm. Qed.

(** Inserting an element whose key is a number among such elements. *)
Lemma insert_asc_present (x : A) (s : list A) :
  RankStep.has_key key x = true ->
  forallb (RankStep.has_key key) s = true ->
  RankStep.insert_asc key x s = Ok (insert_asc (RankStep.value key) x s).
Proof.
  intros Hx. induction s as [|y s IH]; [reflexivity|].
  cbn [forallb]. intros [Hy Hs]%andb_prop.
  cbn [RankStep.insert_asc insert_asc]. rewrite (IH Hs).
  unfold RankStep.has_key in Hx, Hy.
  destruct (key x) as [b|] eqn:Ex; [|discriminate].
  destruct (key y) as [a|] eqn:Ey; [|discriminate].
  unfold key_lt.
  replace (RankStep.value key y) with a by (unfold RankStep.value; now rewrite Ey).
  replace (RankStep.value key x) with b by (unfold RankStep.value; now rewrite Ex).
  cbn [RankStep.lt]. now destruct (a ?= b)%Q.
Qed.

(** Inserting next to an element raises as soon as one of the two keys is
    [None]. *)
Lemma insert_asc_absent (x y : A) (s : list A) :
  RankStep.has_key key x && RankStep.has_key key y = false ->
  RankStep.insert_asc key x (y :: s) = Raise RankStep.TypeError.
Proof.
  unfold RankStep.has_key. cbn [RankStep.insert_asc].
  destruct (key y), (key x); cbn; intros H; first [discriminate | reflexivity].
Qed.

Lemma checked_sort_asc (l : list A) :
  RankStep.sort_asc key l
  = if (length l <=? 1)%nat || forallb (RankStep.has_key key) l
    then Ok (sort_asc (RankStep.value key) l)
    else Raise RankStep.TypeError.
Proof.
  induction l as [|x l IH]; [reflexivity|].
  cbn [RankStep.sort_asc]. rewrite IH. clear IH.
  destruct l as [|y l]; [reflexivity|].
  replace (length (x :: y :: l) <=? 1)%nat with false by reflexivity.
  cbn [orb].
  change (forallb (RankStep.has_key key) (x :: y :: l))
    with (RankStep.has_key key x && forallb (RankStep.has_key key) (y :: l)).
  destruct (forallb (RankStep.has_key key) (y :: l)) eqn:Hl.
  - rewrite orb_true_r, andb_true_r.
    destruct (RankStep.has_key key x) eqn:Hx.
    + apply insert_asc_present; [exact Hx|]. now rewrite has_key_sort_asc.
    + pose proof (sort_asc_length (y :: l)) as Hn.
      destruct (sort_asc (RankStep.value key) (y :: l)) as [|z s]; [discriminate|].
      apply insert_asc_absent. now rewrite Hx.
  - rewrite andb_false_r.
    destruct l as [|z l].
    + cbn [length Nat.leb orb sort_asc insert_asc].
      apply insert_asc_absent. cbn [forallb] in Hl. rewrite andb_true_r in Hl.
      rewrite Hl. apply andb_false_r.
    + reflexivity.
Qed.

(** [sorted(l, key=key, reverse=True)] raises [TypeError] when [l] has two
    elements or more and one of the keys is [None]; otherwise it is the sort
    of the numeric keys. *)
Lemma checked_sorted (l : list A) :
  RankStep.sorted key true l
  = if (length l <=? 1)%nat || forallb (RankStep.has_key key) l
    then Ok (sorted (RankStep.value key) true l)
    else Raise RankStep.TypeError.
Proof.
  unfold RankStep.sorted, sorted. rewrite checked_sort_asc.
  rewrite length_rev, forallb_rev_eq.
  now destruct (_ || _).
Qed.
End RankStepFacts.

Lemma insert_asc_map {A B : Type} (f : A -> B) (key : B -> Q) (x : A) (l : list A) :
  insert_asc key (f x) (map f l) = map f (insert_asc (fun a => key (f a)) x l).
Proof.
  induction l as [|y l IH]; [reflexivity|].
  cbn [map insert_asc]. unfold key_lt. cbv beta.
  destruct (key (f y) ?= key (f x))%Q; cbn [map]; try reflexivity.
  now rewrite IH.
Qed.

Lemma sorted_map {A B : Type} (f : A -> B) (key : B -> Q) (l : list A) :
  sorted key true (map f l) = map f (sorted (fun a => key (f a)) true l).
Proof.
  unfold sorted. rewrite <- (map_rev f l), (map_rev f (sort_asc _ _)). f_equal.
  induction (rev l) as [|x r IH]; [reflexivity|].
  cbn [map sort_asc]. now rewrite IH, insert_asc_map.
Qed.

Lemma collect_of_handles (handles : list proc_handle) :
  RankStep.collect (map RankStep.of_handle handles)
  = map RankStep.of_process (collect_processes handles).
Proof.
  induction handles as [|p handles IH]; [reflexivity|].
  cbn [map RankStep.collect collect_processes RankStep.of_handle RankStep.h_cpu_percent].
  destruct (p_cpu_percent p); cbn [map]; now rewrite IH.
Qed.

Lemma collect_app (hs1 hs2 : list RankStep.handle) :
  RankStep.collect (hs1 ++ hs2) = RankStep.collect hs1 ++ RankStep.collect hs2.
Proof.
  induction hs1 as [|h hs1 IH]; [reflexivity|].
  cbn [app RankStep.collect]. destruct (RankStep.h_cpu_percent h); cbn [app]; now rewrite IH.
Qed.

(** The ranking step in terms of the process dicts it collected. *)
Lemma rank_cases (handles : list RankStep.handle) :
  RankStep.rank handles
  = let ps := RankStep.collect handles in
    if (length ps <=? 1)%nat
       || forallb (RankStep.has_key RankStep.d_mem) ps
    then Ok (top10 (sorted RankStep.d_cpu true ps),
             top10 (sorted (RankStep.value RankStep.d_mem) true ps))
    else Raise RankStep.TypeError.
Proof.
  cbv zeta. unfold RankStep.rank. rewrite !checked_sorted.
  replace (forallb (RankStep.has_key (fun x => Some (RankStep.d_cpu x)))
                   (RankStep.collect handles)) with true.
  2:{ symmetry. apply forallb_forall. reflexivity. }
  rewrite orb_true_r.
  now destruct (_ || _).
Qed.

(** C5, at the failing input: two processes are readable and psutil was
    denied the memory share of one of them, so that its ["mem"] is [None];
    the memory sort of line 163 raises [TypeError], outside the [try] of
    lines 152-160.  In general the ranking step raises exactly when two or
    more processes are readable and the memory share of one of them is
    [None], always a [TypeError].  What the bare [except] does tolerate is a
    raising [p.cpu_percent]: such a process is left out as if it had not been
    enumerated, and the step returns two empty rankings when every read
    raises. *)
Theorem ranking_raises_on_absent_memory_share :
  RankStep.rank RankStep.denied_handles = Raise RankStep.TypeError /\
  (forall handles,
     RankStep.rank handles = Raise RankStep.TypeError <->
     2 <= length (RankStep.collect handles) /\
     Exists (fun p => RankStep.d_mem p = None) (RankStep.collect handles)) /\
  (forall handles e, RankStep.rank handles = Raise e -> e = RankStep.TypeError) /\
  (forall hs1 h hs2 e,
     RankStep.h_cpu_percent h = Raise e ->
     RankStep.rank (hs1 ++ h :: hs2) = RankStep.rank (hs1 ++ hs2)) /\
  (forall handles,
     Forall (fun h => exists e, RankStep.h_cpu_percent h = Raise e) handles ->
     RankStep.rank handles = Ok ([], [])).
Proof.
  split; [reflexivity|].
  split.
  { intros handles. rewrite rank_cases. cbv zeta.
    set (ps := RankStep.collect handles).
    assert (Hex : forallb (RankStep.has_key RankStep.d_mem) ps = false <->
                  Exists (fun p => RankStep.d_mem p = None) ps).
    { clear. induction ps as [|p ps IH].
      - cbn. split; [discriminate | intros H; inversion H].
      - cbn [forallb]. unfold RankStep.has_key at 1.
        rewrite List.Exists_cons, <- IH.
        destruct (RankStep.d_mem p); cbn [andb].
        + split; [tauto|]. now intros [|].
        + tauto. }
    rewrite <- Hex.
    destruct (Nat.leb_spec (length ps) 1) as [Hle|Hgt]; cbn [orb].
    - split; [discriminate | lia].
    - destruct (forallb (RankStep.has_key RankStep.d_mem) ps).
      + split; [discriminate | now intros [_ ?]].
      + split; [intros _; split; [lia | reflexivity] | reflexivity]. }
  split.
  { intros handles e. rewrite rank_cases. cbv zeta.
    destruct (_ || _); [discriminate | now intros [= <-]]. }
  split.
  { intros hs1 h hs2 e He. unfold RankStep.rank.
    rewrite !collect_app. cbn [RankStep.collect]. now rewrite He. }
  intros handles Hall. unfold RankStep.rank.
  replace (RankStep.collect handles) with (@nil RankStep.pdict); [reflexivity|].
  induction Hall as [|h handles [e He] _ IH]; [reflexivity|].
  cbn [RankStep.collect]. now rewrite He.
Qed.

(** Where every prefetched value is present the ranking step never raises,
    and its two rankings are those of [rank_cpu] and [rank_mem] over the
    readable processes. *)
Theorem ranking_with_present_values (handles : list proc_handle) :
  RankStep.rank (map RankStep.of_handle handles)
  = Ok (map RankStep.of_process (rank_cpu (collect_processes handles)),
        map RankStep.of_process (rank_mem (collect_processes handles))).
Proof.
  rewrite rank_cases. cbv zeta. rewrite collect_of_handles.
  replace (forallb (RankStep.has_key RankStep.d_mem)
                   (map RankStep.of_process (collect_processes handles))) with true.
  2:{ symmetry. apply forallb_forall. intros p Hin.
      apply in_map_iff in Hin as (q & <- & _). reflexivity. }
  rewrite orb_true_r. unfold rank_cpu, rank_mem, top10.
  rewrite !sorted_map, !firstn_map. reflexivity.
Qed.

(** ** The loop *)

Lemma tick_fault_none (src : tick_source) :
  tick_fault src = None ->
  exists rd, tick_reads src = Ok rd /\ process_iter_end src = None.
Proof.
  unfold tick_fault. destruct (tick_reads src) as [rd|e]; [|discriminate].
  intros H. now exists rd.
Qed.

(** Ticks without a fault: each appends its sample; none is lost. *)
Lemma running_complete (interval samples : Z) (src : nat -> tick_source)
    (n a : nat) (f : frame) :
  interval <> 0%Z ->
  (forall i, a <= i < a + n -> tick_fault (src i) = None) ->
  exists (f' : frame) (new : list sample),
    running interval samples src (seq a n) f = (Ok tt, f') /\
    logs f' = logs f ++ new /\
    map log_ts new = map (fun i => time_time (src i)) (seq a n) /\
    stdout f' = stdout f ++ map (progress samples) (seq a n) /\
    writes f' = writes f.
Proof.
  intros Hi. revert a f. induction n as [|n IH]; intros a f Hok.
  - exists f, []. cbn. rewrite !app_nil_r. auto.
  - destruct (tick_fault_none (src a)) as (rd & Hrd & Hend); [apply Hok; lia|].
    pose proof (tick_ok interval samples a (src a) rd f Hi Hrd Hend) as Ht.
    set (f1 := {| logs := _ |}) in Ht.
    destruct (IH (S a) f1) as (f' & new & Hrun & Hl & Hts & Hout & Hw).
    { intros i Hi'. apply Hok. lia. }
    exists f', (assemble interval (net_prev f) (disk_prev f) (src a) rd :: new).
    unfold running in *. cbn [seq for_each]. unfold bind at 1. rewrite Ht, Hrun.
    split; [reflexivity|]. rewrite Hl, Hout. subst f1. cbn [logs stdout writes] in *.
    rewrite <- !app_assoc. cbn [map]. rewrite Hts. auto.
Qed.

(** The first fault, at tick [m], ends the loop: the [m - a] samples of the
    earlier ticks are in [logs], the faulty tick adds none. *)
Lemma running_abort (interval samples : Z) (src : nat -> tick_source) (e : exn)
    (n a m : nat) (f : frame) :
  interval <> 0%Z ->
  a <= m < a + n ->
  (forall i, a <= i < m -> tick_fault (src i) = None) ->
  tick_fault (src m) = Some e ->
  exists (f' : frame) (new : list sample),
    running interval samples src (seq a n) f = (Raise e, f') /\
    logs f' = logs f ++ new /\
    map log_ts new = map (fun i => time_time (src i)) (seq a (m - a)) /\
    stdout f' = stdout f ++ map (progress samples) (seq a (S (m - a))) /\
    writes f' = writes f.
Proof.
  intros Hi. revert a f. induction n as [|n IH]; intros a f Hm Hok Hbad; [lia|].
  unfold running in *. cbn [seq for_each]. unfold bind at 1.
  destruct (Nat.eq_dec a m) as [->|Hne].
  - destruct (tick_raise interval samples m (src m) e f Hi Hbad)
      as (f' & Ht & Hl & Hw & Hout).
    exists f', []. rewrite Ht, Nat.sub_diag, app_nil_r. cbn. auto.
  - destruct (tick_fault_none (src a)) as (rd & Hrd & Hend); [apply Hok; lia|].
    pose proof (tick_ok interval samples a (src a) rd f Hi Hrd Hend) as Ht.
    set (f1 := {| logs := _ |}) in Ht.
    destruct (IH (S a) f1) as (f' & new & Hrun & Hl & Hts & Hout & Hw);
      [lia | intros i Hi'; apply Hok; lia | exact Hbad |].
    exists f', (assemble interval (net_prev f) (disk_prev f) (src a) rd :: new).
    rewrite Ht, Hrun. split; [reflexivity|].
    rewrite Hl, Hout. subst f1. cbn [logs stdout writes] in *.
    replace (m - a) with (S (m - S a)) by lia.
    rewrite <- !app_assoc. cbn [map seq]. rewrite Hts. auto.
Qed.

(** ** The whole run *)

Lemma prime_processes_ok (reads : list (result Q)) (f : frame) :
  prime_processes reads f = (Ok tt, f).
Proof.
  induction reads as [|r reads IH]; [reflexivity|].
  cbn [prime_processes]. unfold bind. destruct r; cbn; exact IH.
Qed.

Lemma write_csv_logs (io : io_script) (base label : string) (logs : list sample)
    (folder : string) :
  wo_logs (write_csv io base label logs folder) = logs.
Proof.
  unfold write_csv.
  destruct io; cbn;
    repeat match goal with
           | |- context [match ?x with _ => _ end] => destruct x; cbn
           | |- context [if ?x then _ else _] => destruct x; cbn
           end; reflexivity.
Qed.

(** After a successful start-up the run is the guarded loop followed by
    [finish]. *)
Lemma run_started (W : world) (label : string) (duration interval : Z) :
  startup_ok W -> interval <> 0%Z ->
  exists dir n0 d0,
    get_storage_directory W = Ok dir /\
    run W label duration interval
    = bind (try_except_KeyboardInterrupt
              (running interval (duration / interval) (tick_at W)
                 (seq 0 (scheduled duration interval)))
              (print msg_interrupted))
           (fun _ => finish W label dir)
           (started W label dir n0 d0).
Proof.
  intros ((dir & Hdir) & (c & Hc) & Hend & (n0 & Hn) & (d0 & Hd)) Hi.
  exists dir, n0, d0. split; [exact Hdir|].
  unfold run, collect_telemetry, priming, floordiv.
  destruct (Z.eqb_spec interval 0) as [E|_]; [exact (False_ind _ (Hi E))|].
  unfold bind at 1. unfold call at 1. rewrite Hdir.
  unfold bind at 1. unfold print at 1. cbn [logs net_prev disk_prev stdout writes].
  unfold bind at 1. unfold print at 1. cbn [logs net_prev disk_prev stdout writes].
  unfold bind at 1. unfold logs_reset at 1. cbn [logs net_prev disk_prev stdout writes].
  unfold bind at 1. unfold bind at 1. unfold call at 1. rewrite Hc.
  unfold bind at 1. rewrite prime_processes_ok.
  unfold bind at 1. unfold call at 1. rewrite Hend.
  unfold bind at 1. unfold call at 1. rewrite Hn.
  unfold bind at 1. unfold call at 1. rewrite Hd.
  unfold set_prev. cbn [logs net_prev disk_prev stdout writes].
  unfold bind at 1. unfold call at 1.
  reflexivity.
Qed.

Lemma finish_spec (W : world) (label dir : string) (f : frame) :
  let wo := write_csv (file_system W) (filename_base W label) label (logs f) dir in
  finish W label dir f
  = (wo_result wo,
     {| logs := logs f; net_prev := net_prev f; disk_prev := disk_prev f;
        stdout := stdout f ++ wo_stdout wo
                  ++ match wo_result wo with
                     | Ok _ => [msg_finished]
                     | Raise _ => []
                     end;
        writes := writes f ++ [wo] |}).
Proof.
  cbv zeta. unfold finish, bind, call_write_csv, print.
  rewrite write_csv_logs.
  destruct (wo_result _); cbn [logs net_prev disk_prev stdout writes].
  - destruct a. now rewrite <- app_assoc.
  - now rewrite app_nil_r.
Qed.

Lemma scheduled_floor (duration interval : Z) :
  (0 < interval)%Z -> (0 <= duration)%Z ->
  let q := Z.of_nat (scheduled duration interval) in
  (interval * q <= duration < interval * (q + 1))%Z.
Proof.
  intros Hi Hd. cbv zeta. unfold scheduled.
  rewrite Z2Nat.id by (apply Z.div_pos; lia).
  pose proof (Z.mul_div_le duration interval Hi).
  pose proof (Z.mul_succ_div_gt duration interval Hi). lia.
Qed.

(** A run without fault reaches [finish] with one sample per scheduled
    tick. *)
Lemma run_complete (W : world) (label : string) (duration interval : Z) :
  startup_ok W -> interval <> 0%Z ->
  (forall i, i < scheduled duration interval -> tick_fault (tick_at W i) = None) ->
  exists (dir : string) (f1 : frame),
    get_storage_directory W = Ok dir /\
    run W label duration interval = finish W label dir f1 /\
    map log_ts (logs f1)
    = map (fun i => time_time (tick_at W i)) (seq 0 (scheduled duration interval)) /\
    stdout f1 = banner W label dir
                ++ map (progress (duration / interval))
                       (seq 0 (scheduled duration interval)) /\
    writes f1 = [].
Proof.
  intros Hs Hi Hok.
  destruct (run_started W label duration interval Hs Hi) as (dir & n0 & d0 & Hdir & Hrun).
  destruct (running_complete interval (duration / interval) (tick_at W)
              (scheduled duration interval) 0 (started W label dir n0 d0) Hi)
    as (f1 & new & Hloop & Hl & Hts & Hout & Hw).
  { intros i Hi'. apply Hok. lia. }
  exists dir, f1. split; [exact Hdir|].
  rewrite Hrun. unfold bind at 1, try_except_KeyboardInterrupt. rewrite Hloop.
  split; [reflexivity|]. rewrite Hl, Hout, Hw. cbn [started logs stdout writes app].
  auto.
Qed.

(** A run whose first fault is at tick [m]: the loop ends there with the [m]
    earlier samples.  A [KeyboardInterrupt] is caught and the run goes on to
    [finish]; any other exception leaves [collect_telemetry] at once. *)
Lemma run_faulted (W : world) (label : string) (duration interval : Z)
    (m : nat) (e : exn) :
  startup_ok W -> interval <> 0%Z ->
  m < scheduled duration interval ->
  (forall i, i < m -> tick_fault (tick_at W i) = None) ->
  tick_fault (tick_at W m) = Some e ->
  exists (dir : string) (f1 : frame),
    get_storage_directory W = Ok dir /\
    run W label duration interval
    = match e with
      | KeyboardInterrupt =>
          (print msg_interrupted ;; finish W label dir)%py f1
      | Exception _ => (Raise e, f1)
      end /\
    map log_ts (logs f1) = map (fun i => time_time (tick_at W i)) (seq 0 m) /\
    stdout f1 = banner W label dir
                ++ map (progress (duration / interval)) (seq 0 (S m)) /\
    writes f1 = [].
Proof.
  intros Hs Hi Hm Hok Hbad.
  destruct (run_started W label duration interval Hs Hi) as (dir & n0 & d0 & Hdir & Hrun).
  destruct (running_abort interval (duration / interval) (tick_at W) e
              (scheduled duration interval) 0 m (started W label dir n0 d0) Hi)
    as (f1 & new & Hloop & Hl & Hts & Hout & Hw);
    [lia | intros i Hi'; apply Hok; lia | exact Hbad |].
  rewrite Nat.sub_0_r in Hts, Hout.
  exists dir, f1. split; [exact Hdir|].
  rewrite Hrun. unfold bind at 1, try_except_KeyboardInterrupt. rewrite Hloop.
  split; [destruct e; reflexivity|].
  rewrite Hl, Hout, Hw. cbn [started logs stdout writes app]. auto.
Qed.

Lemma stub_startup_ok (ticks : nat -> tick_source) :
  startup_ok (with_ticks ticks stub_world).
Proof. unfold startup_ok. cbn. repeat split; eauto. Qed.

Lemma stub_tick_fault (i : nat) : tick_fault (stub_tick i) = None.
Proof. reflexivity. Qed.

(** C2: with [0 < I <= T], a run in which no unprotected call raises executes
    exactly [floor(T / I)] ticks: that many progress lines are printed, one
    sample per tick is appended in tick order, and the record handed to
    [write_csv] has exactly [floor(T / I)] entries. *)
Theorem tick_count (W : world) (label : string) (T I : Z) :
  (0 < I)%Z -> (I <= T)%Z ->
  startup_ok W ->
  (forall i, i < scheduled T I -> tick_fault (tick_at W i) = None) ->
  exists (dir : string) (f : frame) (wo : write_outcome),
    run W label T I = (wo_result wo, f) /\
    (let q := Z.of_nat (length (logs f)) in (I * q <= T < I * (q + 1))%Z) /\
    Z.of_nat (length (logs f)) = (T / I)%Z /\
    1 <= length (logs f) /\
    map log_ts (logs f)
    = map (fun i => time_time (tick_at W i)) (seq 0 (length (logs f))) /\
    stdout f = banner W label dir
               ++ map (progress (T / I)) (seq 0 (length (logs f)))
               ++ wo_stdout wo
               ++ match wo_result wo with
                  | Ok _ => [msg_finished]
                  | Raise _ => []
                  end /\
    writes f = [wo] /\
    wo = write_csv (file_system W) (filename_base W label) label (logs f) dir.
Proof.
  intros HI HT Hs Hok.
  destruct (run_complete W label T I Hs ltac:(lia) Hok)
    as (dir & f1 & Hdir & Hrun & Hts & Hout & Hw).
  assert (Hlen : length (logs f1) = scheduled T I).
  { apply (f_equal (@length Q)) in Hts. now rewrite !length_map, length_seq in Hts. }
  pose proof (scheduled_floor T I HI ltac:(lia)) as Hfloor. cbv zeta in Hfloor.
  exists dir. eexists. eexists. rewrite Hrun, finish_spec.
  split; [reflexivity|]. cbn [logs stdout writes]. rewrite Hlen, Hw, Hout.
  split; [exact Hfloor|].
  split; [unfold scheduled; apply Z2Nat.id, Z.div_pos; lia|].
  split; [nia|]. split; [exact Hts|].
  split; [now rewrite <- app_assoc|]. split; reflexivity.
Qed.

Lemma tick_count_witness :
  exists (f : frame),
    snd (run stub_world "pc" 10 5) = f /\ length (logs f) = 2 /\
    map log_disk_r (logs f) = [round2 (2 # 10); round2 (2 # 10)] /\
    map log_cpu (logs f) = [50; 50]%Q.
Proof.
  destruct (tick_count stub_world "pc" 10 5) as (dir & f & wo & Hrun & _ & Hq & _);
    [lia | lia | apply (stub_startup_ok stub_tick) | intros; apply stub_tick_fault |].
  exists f. rewrite Hrun. split; [reflexivity|].
  split; [apply Nat2Z.inj; rewrite Hq; reflexivity|].
  apply (f_equal snd) in Hrun. cbn [snd] in Hrun. subst f. split; reflexivity.
Defined.

(** C6, at the failing input: the interrupt is raised inside a per-process
    read of the first of two scheduled ticks; the bare [except] swallows it,
    the process is left out of the ranking, and the loop runs on to the end:
    two samples are logged and no interruption is reported. *)
Theorem interrupt_in_process_read_is_swallowed :
  map p_cpu_percent (process_iter (tick_at interrupted_world 0))
  = [Ok 2%Q; Raise KeyboardInterrupt] /\
  fst (run interrupted_world "pc" 10 5) = Ok tt /\
  length (logs (snd (run interrupted_world "pc" 10 5))) = 2 /\
  map (fun s => map pid (log_top_cpu s)) (logs (snd (run interrupted_world "pc" 10 5)))
  = [[11]; [11; 13]]%Z /\
  existsb (String.eqb msg_interrupted)
          (stdout (snd (run interrupted_world "pc" 10 5))) = false.
Proof. vm_compute. repeat split. Qed.

(** An interrupt raised by an unprotected call of tick [m] (the blocking CPU
    read, any other whole-system read, the process iterator) ends the loop:
    [logs] holds exactly the [m] samples of the completed ticks and
    [write_csv] is called exactly once, on that record. *)
Theorem interrupt_preserves_samples (W : world) (label : string) (T I : Z) (m : nat) :
  (0 < I)%Z ->
  startup_ok W ->
  m < scheduled T I ->
  (forall i, i < m -> tick_fault (tick_at W i) = None) ->
  tick_fault (tick_at W m) = Some KeyboardInterrupt ->
  exists (dir : string) (f : frame) (wo : write_outcome),
    run W label T I = (wo_result wo, f) /\
    length (logs f) = m /\
    map log_ts (logs f) = map (fun i => time_time (tick_at W i)) (seq 0 m) /\
    stdout f = banner W label dir
               ++ map (progress (T / I)) (seq 0 (S m))
               ++ [msg_interrupted]
               ++ wo_stdout wo
               ++ match wo_result wo with
                  | Ok _ => [msg_finished]
                  | Raise _ => []
                  end /\
    writes f = [wo] /\
    wo_logs wo = logs f /\
    wo = write_csv (file_system W) (filename_base W label) label (logs f) dir.
Proof.
  intros HI Hs Hm Hok Hbad.
  destruct (run_faulted W label T I m KeyboardInterrupt Hs ltac:(lia) Hm Hok Hbad)
    as (dir & f1 & Hdir & Hrun & Hts & Hout & Hw).
  assert (Hlen : length (logs f1) = m).
  { apply (f_equal (@length Q)) in Hts. now rewrite !length_map, length_seq in Hts. }
  exists dir. eexists. eexists. rewrite Hrun.
  unfold bind at 1, print at 1. rewrite finish_spec.
  cbn [logs stdout writes]. rewrite Hw, Hout.
  split; [reflexivity|]. split; [exact Hlen|]. split; [exact Hts|].
  split; [now rewrite <- !app_assoc|].
  split; [reflexivity|]. split; [apply write_csv_logs | reflexivity].
Qed.

Lemma cancelled_tick_fault :
  tick_fault (tick_at cancelled_world 1) = Some KeyboardInterrupt.
Proof. reflexivity. Qed.

Lemma interrupt_preserves_samples_witness :
  exists (f : frame) (wo : write_outcome),
    snd (run cancelled_world "pc" 3600 5) = f /\
    length (logs f) = 1 /\ writes f = [wo] /\ wo_logs wo = logs f.
Proof.
  destruct (interrupt_preserves_samples cancelled_world "pc" 3600 5 1)
    as (dir & f & wo & Hrun & Hlen & _ & _ & Hw & Hl & _);
    [lia | apply stub_startup_ok | vm_compute; lia
     | intros i Hi; assert (i = 0) as -> by lia; reflexivity
     | apply cancelled_tick_fault |].
  exists f, wo. rewrite Hrun. auto.
Defined.

Lemma broken_tick_fault :
  tick_fault (tick_at broken_world 1) = Some (Exception "psutil.Error").
Proof. reflexivity. Qed.

(** C7 as stated fails: when the blocking CPU read of the second tick raises
    an [Exception], the sample of the first tick is handed to no [write_csv]
    call. *)
Lemma metric_failure_writes_nothing :
  ~ (forall (W : world) (label : string) (T I : Z) (m : nat) (msg : string),
        (0 < I)%Z -> startup_ok W -> m < scheduled T I ->
        (forall i, i < m -> tick_fault (tick_at W i) = None) ->
        tick_fault (tick_at W m) = Some (Exception msg) ->
        exists wo, In wo (writes (snd (run W label T I))) /\
                   wo_logs wo = logs (snd (run W label T I))).
Proof.
  intros H.
  destruct (H broken_world "pc" 10%Z 5%Z 1 "psutil.Error") as (wo & Hin & _);
    [lia | apply stub_startup_ok | vm_compute; lia
     | intros i Hi; assert (i = 0) as -> by lia; reflexivity
     | apply broken_tick_fault |].
  vm_compute in Hin. exact Hin.
Qed.

(** C7, amended: an [Exception] raised by an unprotected call of tick [m]
    aborts the run: it escapes [collect_telemetry] unhandled, [logs] holds
    the [m] samples collected so far, and [write_csv] is not called, so
    nothing is written. *)
Theorem metric_failure_aborts_without_writing (W : world) (label : string)
    (T I : Z) (m : nat) (msg : string) :
  (0 < I)%Z ->
  startup_ok W ->
  m < scheduled T I ->
  (forall i, i < m -> tick_fault (tick_at W i) = None) ->
  tick_fault (tick_at W m) = Some (Exception msg) ->
  exists (dir : string) (f : frame),
    run W label T I = (Raise (Exception msg), f) /\
    length (logs f) = m /\
    map log_ts (logs f) = map (fun i => time_time (tick_at W i)) (seq 0 m) /\
    stdout f = banner W label dir ++ map (progress (T / I)) (seq 0 (S m)) /\
    writes f = [].
Proof.
  intros HI Hs Hm Hok Hbad.
  destruct (run_faulted W label T I m (Exception msg) Hs ltac:(lia) Hm Hok Hbad)
    as (dir & f1 & Hdir & Hrun & Hts & Hout & Hw).
  exists dir, f1. split; [exact Hrun|].
  split; [|auto].
  apply (f_equal (@length Q)) in Hts. now rewrite !length_map, length_seq in Hts.
Qed.

Lemma metric_failure_aborts_without_writing_witness :
  exists (f : frame),
    run broken_world "pc" 10 5 = (Raise (Exception "psutil.Error"), f) /\
    length (logs f) = 1 /\ writes f = [].
Proof.
  destruct (metric_failure_aborts_without_writing broken_world "pc" 10 5 1 "psutil.Error")
    as (dir & f & Hrun & Hlen & _ & _ & Hw);
    [lia | apply stub_startup_ok | vm_compute; lia
     | intros i Hi; assert (i = 0) as -> by lia; reflexivity
     | apply broken_tick_fault |].
  exists f. auto.
Defined.

(** ** The table *)

Lemma fields_interleaved : fields = interleaved_fields.
Proof. reflexivity. Qed.

Lemma fields_length : length fields = 71.
Proof. reflexivity. Qed.

Ltac peel_n n l :=
  lazymatch n with
  | O => idtac
  | S ?k => let p := fresh "p" in destruct l as [|p l]; [|peel_n k l]
  end.

(** [DictWriter] lays the row dict out column by column: a well-formed
    sample raises no [ValueError], and every slot without a ranking entry is
    written blank. *)
Lemma build_row_cells (label : string) (log : sample) :
  wf_sample log ->
  dict_to_list fields (build_row label log) = Ok (row_cells label log).
Proof.
  destruct log as [ts tm c r rg dr dw ns nr ch cpus mems]. unfold wf_sample.
  cbn [log_top_cpu log_top_mem]. intros [Hc Hm].
  peel_n 11 cpus; [..|cbn [length] in Hc; lia];
  (peel_n 11 mems; [..|cbn [length] in Hm; lia]);
  vm_compute; reflexivity.
Qed.

Lemma write_rows_fine (label : string) (logs : list sample) (n : nat) (written : table) :
  Forall wf_sample logs ->
  write_rows IoFine n label logs written
  = (Ok tt, written ++ map (row_cells label) logs).
Proof.
  intros Hwf. revert n written.
  induction Hwf as [|log logs Hlog _ IH]; intros n written.
  - cbn. now rewrite app_nil_r.
  - cbn [write_rows map]. unfold writerow. rewrite (build_row_cells label log Hlog).
    cbn [emit]. rewrite IH, <- app_assoc. reflexivity.
Qed.

Lemma emit_extends (io : io_script) (n : nat) (cells : list cell) (written : table)
    (r : result unit) (t : table) :
  emit io n cells written = (r, t) -> exists more, t = written ++ more.
Proof.
  unfold emit. intros H.
  destruct io as [| |k e]; [| |destruct (Nat.eqb k n)]; injection H as <- <-;
    first [now exists [cells] | exists []; now rewrite app_nil_r].
Qed.

Lemma write_rows_extends (io : io_script) (label : string) (logs : list sample)
    (n : nat) (written : table) (r : result unit) (t : table) :
  write_rows io n label logs written = (r, t) -> exists more, t = written ++ more.
Proof.
  revert n written. induction logs as [|log logs IH]; intros n written H.
  - injection H as <- <-. exists []. now rewrite app_nil_r.
  - cbn [write_rows] in H. unfold writerow in H.
    destruct (dict_to_list fields (build_row label log)) as [cells|e].
    + destruct (emit io n cells written) as [[[]|e] w1] eqn:He.
      * apply emit_extends in He as (m1 & ->). apply IH in H as (m2 & ->).
        exists (m1 ++ m2). now rewrite app_assoc.
      * injection H as <- <-. now apply emit_extends in He.
    + injection H as <- <-. exists []. now rewrite app_nil_r.
Qed.

Lemma dict_to_list_raises (fieldnames : list string) (row : gmap string cell) (e : exn) :
  dict_to_list fieldnames row = Raise e -> is_Exception e = true.
Proof.
  unfold dict_to_list. destruct (forallb _ _); [discriminate|].
  now intros [= <-].
Qed.



Lemma slot_cells_blank (value : process -> Q) (ps : list process) (i : nat) :
  1 <= i -> length ps < i -> slot_cells value ps i = [Blank; Blank; Blank].
Proof.
  intros H1 H2. unfold slot_cells. rewrite lookup_ge_None_2; [reflexivity | lia].
Qed.

Lemma slot_cells_filled (value : process -> Q) (ps : list process) (i : nat)
    (p : process) :
  ps !! i = Some p ->
  slot_cells value ps (S i) = [CInt (pid p); CStr (name p); CFloat (value p)].
Proof.
  intros H. unfold slot_cells. cbn [Nat.sub]. rewrite Nat.sub_0_r, H. reflexivity.
Qed.

Lemma row_cells_length (label : string) (log : sample) :
  length (row_cells label log) = 71.
Proof.
  assert (Hs : forall value ps i, length (slot_cells value ps i) = 3).
  { intros. unfold slot_cells. now destruct (_ !! _). }
  unfold row_cells, range_1_11. cbn [seq flat_map].
  rewrite !length_app, !Hs. reflexivity.
Qed.

Lemma write_csv_fine (base label folder : string) (logs : list sample) :
  Forall wf_sample logs ->
  write_csv IoFine base label logs folder
  = {| wo_result := Ok tt;
       wo_stdout := ["[✓] CSV saved: " +:+ path_join folder (base +:+ "_metrics.csv")];
       wo_path := path_join folder (base +:+ "_metrics.csv");
       wo_file := Some (header :: map (row_cells label) logs);
       wo_logs := logs |}.
Proof.
  intros Hwf. unfold write_csv, writeheader. cbn [emit app].
  rewrite (write_rows_fine label logs 1 [map CStr fields] Hwf). reflexivity.
Qed.

(** C8 as stated fails: the columns are not the ten CPU triples followed by
    the ten memory triples; already the fifteenth column is [top_mem_1_pid]
    where that order has [top_cpu_2_pid]. *)
Lemma column_order_not_grouped :
  fields <> grouped_fields /\
  fields !! 14 = Some "top_mem_1_pid" /\
  grouped_fields !! 14 = Some "top_cpu_2_pid".
Proof.
  split; [|split; reflexivity].
  intros H. apply (f_equal (fun l => l !! 14)) in H. vm_compute in H. discriminate H.
Qed.

(** C8, amended: the column order is the 11 scalar columns followed, for
    each slot [i] from 1 to 10, by the triple [top_cpu_i_*] and then the
    triple [top_mem_i_*].  For every record of well-formed samples the
    written table is the header and one row per sample; every row has all 71
    columns, a filled slot holds the ranked entry's pid, name and value, and
    a slot without entry is three blanks. *)
Theorem table_schema_interleaved (base label folder : string) (logs : list sample) :
  Forall wf_sample logs ->
  fields = interleaved_fields /\
  length scalar_fields = 11 /\
  length fields = 71 /\
  wo_file (write_csv IoFine base label logs folder)
  = Some (header :: map (row_cells label) logs) /\
  Forall (fun row => length row = 71) (header :: map (row_cells label) logs) /\
  (forall log, In log logs ->
     dict_to_list fields (build_row label log) = Ok (row_cells label log)) /\
  (forall (value : process -> Q) (ps : list process) (i : nat) (p : process),
     ps !! i = Some p ->
     slot_cells value ps (S i) = [CInt (pid p); CStr (name p); CFloat (value p)]) /\
  (forall (value : process -> Q) (ps : list process) (i : nat),
     1 <= i -> length ps < i -> slot_cells value ps i = [Blank; Blank; Blank]).
Proof.
  intros Hwf.
  split; [reflexivity|]. split; [reflexivity|]. split; [reflexivity|].
  split; [now rewrite write_csv_fine|].
  split.
  { constructor; [reflexivity|]. apply List.Forall_forall. intros row Hin.
    apply in_map_iff in Hin as (log & <- & _). apply row_cells_length. }
  split.
  { intros log Hin. apply build_row_cells.
    rewrite List.Forall_forall in Hwf. now apply Hwf. }
  split; [apply slot_cells_filled | apply slot_cells_blank].
Qed.


Lemma table_schema_interleaved_witness :
  wo_file (write_csv IoFine "b" "pc" [stub_sample] "d")
  = Some [header; row_cells "pc" stub_sample] /\
  firstn 6 (skipn 11 (row_cells "pc" stub_sample))
  = [CInt 11; CStr "init"; CFloat 2; CInt 13; CStr "shell"; CFloat 3] /\
  firstn 3 (skipn 23 (row_cells "pc" stub_sample)) = [Blank; Blank; Blank].
Proof.
  split.
  - apply (table_schema_interleaved "b" "pc" "d" [stub_sample]).
    constructor; [|constructor]. split; vm_compute; lia.
  - vm_compute. split; reflexivity.
Defined.











(** C10: whatever is written starts with the header: the file is never
    opened, or is empty, or its first row is the header.  When the file
    system raises nothing the header is there, and for an empty record the
    file is the 71-column header (11 scalar columns and 10 times 6 ranking
    columns) and no data row. *)
Theorem header_written_first (io : io_script) (base label folder : string)
    (logs : list sample) :
  (forall t, wo_file (write_csv io base label logs folder) = Some t ->
             t = [] \/ exists rows, t = header :: rows) /\
  (exists rows, wo_file (write_csv IoFine base label logs folder)
                = Some (header :: rows)) /\
  wo_file (write_csv IoFine base label [] folder) = Some [header] /\
  wo_result (write_csv IoFine base label [] folder) = Ok tt /\
  header = map CStr (scalar_fields ++ flat_map slot_fields range_1_11) /\
  length scalar_fields = 11 /\
  Forall (fun i => length (slot_fields i) = 6) range_1_11 /\
  length range_1_11 = 10 /\
  length header = 71.
Proof.
  assert (Hgen : forall io', forall t,
             wo_file (write_csv io' base label logs folder) = Some t ->
             t = [] \/ exists rows, t = header :: rows).
  { intros io' t. unfold write_csv, writeheader.
    destruct io' as [| e | k e].
    - cbn [emit app].
      destruct (write_rows IoFine 1 label logs [map CStr fields]) as [r t'] eqn:Hw.
      apply write_rows_extends in Hw as (more & ->).
      destruct r as [[]|e]; [|destruct (is_Exception e)]; cbn; intros [= <-]; eauto.
    - destruct (is_Exception e); cbn; discriminate.
    - unfold emit at 1. destruct (Nat.eqb k 0).
      + destruct (is_Exception e); cbn; intros [= <-]; auto.
      + cbn [app].
        destruct (write_rows (IoWriteFails k e) 1 label logs [map CStr fields])
          as [r t'] eqn:Hw.
        apply write_rows_extends in Hw as (more & ->).
        destruct r as [[]|e']; [|destruct (is_Exception e')]; cbn; intros [= <-]; eauto. }
  split; [apply Hgen|]. split.
  { unfold write_csv, writeheader. cbn [emit app].
    destruct (write_rows IoFine 1 label logs [map CStr fields]) as [r t'] eqn:Hw.
    apply write_rows_extends in Hw as (more & ->).
    destruct r as [[]|e]; [|destruct (is_Exception e)]; cbn; eauto. }
  split; [reflexivity|]. split; [reflexivity|]. split; [reflexivity|].
  split; [reflexivity|]. split; [repeat constructor|]. split; reflexivity.
Qed.

(** ** Priming *)

(** Priming runs before the [try] of line 127: an exception raised by the
    first priming read, the operator's interrupt included, leaves
    [collect_telemetry] with nothing logged and [write_csv] never called. *)
Theorem priming_exception_escapes (W : world) (label dir : string) (T I : Z) (e : exn) :
  get_storage_directory W = Ok dir ->
  prime_cpu_percent W = Raise e ->
  exists (f : frame),
    run W label T I = (Raise e, f) /\
    logs f = [] /\ writes f = [] /\ stdout f = banner W label dir.
Proof.
  intros Hdir Hc. eexists.
  unfold run, collect_telemetry, priming.
  unfold bind at 1. unfold call at 1. rewrite Hdir.
  unfold bind at 1. unfold print at 1. cbn [logs net_prev disk_prev stdout writes].
  unfold bind at 1. unfold print at 1. cbn [logs net_prev disk_prev stdout writes].
  unfold bind at 1. unfold logs_reset at 1. cbn [logs net_prev disk_prev stdout writes].
  unfold bind at 1. unfold bind at 1. unfold call at 1. rewrite Hc.
  split; [reflexivity|]. cbn [logs writes stdout]. auto.
Qed.

Lemma priming_exception_escapes_witness :
  exists (f : frame),
    run unprimed_world "pc" 10 5 = (Raise KeyboardInterrupt, f) /\
    logs f = [] /\ writes f = [].
Proof.
  destruct (priming_exception_escapes unprimed_world "pc"
              "/home/user/Desktop/Telemetry_Data" 10 5 KeyboardInterrupt)
    as (f & Hrun & Hl & Hw & _); [reflexivity | reflexivity |].
  exists f. auto.
Defined.

(** ** Baselines: rates are measured tick over tick *)

Lemma running_complete_exact (interval samples : Z) (src : nat -> tick_source)
    (n a : nat) (f : frame) :
  interval <> 0%Z ->
  (forall i, a <= i < a + n -> tick_fault (src i) = None) ->
  exists (f' : frame),
    running interval samples src (seq a n) f = (Ok tt, f') /\
    logs f' = logs f ++ samples_from interval src (net_prev f) (disk_prev f) (seq a n) /\
    stdout f' = stdout f ++ map (progress samples) (seq a n) /\
    writes f' = writes f.
Proof.
  intros Hi. revert a f. induction n as [|n IH]; intros a f Hok.
  - exists f. cbn. rewrite !app_nil_r. auto.
  - destruct (tick_fault_none (src a)) as (rd & Hrd & Hend); [apply Hok; lia|].
    pose proof (tick_ok interval samples a (src a) rd f Hi Hrd Hend) as Ht.
    set (f1 := {| logs := _ |}) in Ht.
    destruct (IH (S a) f1) as (f' & Hrun & Hl & Hout & Hw).
    { intros i Hi'. apply Hok. lia. }
    exists f'. unfold running in *. cbn [seq for_each samples_from].
    unfold bind at 1. rewrite Ht, Hrun, Hrd.
    split; [reflexivity|]. rewrite Hl, Hout. subst f1.
    cbn [logs stdout writes net_prev disk_prev] in *.
    rewrite <- !app_assoc. auto.
Qed.

Lemma samples_from_first (interval : Z) (src : nat -> tick_source)
    (np : net_counters) (dp : disk_counters) (a n : nat) (rd : readings) :
  tick_reads (src a) = Ok rd ->
  samples_from interval src np dp (seq a (S n)) !! 0
  = Some (assemble interval np dp (src a) rd).
Proof. intros H. cbn [seq samples_from]. now rewrite H. Qed.

Lemma samples_from_next (interval : Z) (src : nat -> tick_source) (n : nat) :
  forall (a k : nat) (np : net_counters) (dp : disk_counters) (rd rd' : readings),
  (forall i, a <= i < a + n -> exists r, tick_reads (src i) = Ok r) ->
  S k < n ->
  tick_reads (src (a + k)) = Ok rd ->
  tick_reads (src (a + S k)) = Ok rd' ->
  samples_from interval src np dp (seq a n) !! (S k)
  = Some (assemble interval (rd_net rd) (rd_disk rd) (src (a + S k)) rd').
Proof.
  induction n as [|n IH]; intros a k np dp rd rd' Hall Hk Hrd Hrd'; [lia|].
  cbn [seq samples_from].
  destruct (Hall a ltac:(lia)) as (r0 & Hr0). rewrite Hr0. cbn [lookup list_lookup].
  destruct k as [|k].
  - rewrite Nat.add_0_r in Hrd. rewrite Hr0 in Hrd. injection Hrd as ->.
    destruct n as [|n]; [lia|].
    replace (a + 1) with (S a) in Hrd' |- * by lia.
    now apply samples_from_first.
  - replace (a + S (S k)) with (S a + S k) in Hrd' |- * by lia.
    replace (a + S k) with (S a + k) in Hrd by lia.
    apply (IH (S a) k _ _ rd rd'); [|lia|assumption..].
    intros i Hi. apply Hall. lia.
Qed.

Lemma run_started_exact (W : world) (label dir : string) (duration interval : Z)
    (c : Q) (n0 : net_counters) (d0 : disk_counters) :
  get_storage_directory W = Ok dir ->
  prime_cpu_percent W = Ok c ->
  prime_process_iter_end W = None ->
  prime_net_io_counters W = Ok n0 ->
  prime_disk_io_counters W = Ok d0 ->
  interval <> 0%Z ->
  run W label duration interval
  = bind (try_except_KeyboardInterrupt
            (running interval (duration / interval) (tick_at W)
               (seq 0 (scheduled duration interval)))
            (print msg_interrupted))
         (fun _ => finish W label dir)
         (started W label dir n0 d0).
Proof.
  intros Hdir Hc Hend Hn Hd Hi.
  unfold run, collect_telemetry, priming, floordiv.
  destruct (Z.eqb_spec interval 0) as [E|_]; [exact (False_ind _ (Hi E))|].
  unfold bind at 1. unfold call at 1. rewrite Hdir.
  unfold bind at 1. unfold print at 1. cbn [logs net_prev disk_prev stdout writes].
  unfold bind at 1. unfold print at 1. cbn [logs net_prev disk_prev stdout writes].
  unfold bind at 1. unfold logs_reset at 1. cbn [logs net_prev disk_prev stdout writes].
  unfold bind at 1. unfold bind at 1. unfold call at 1. rewrite Hc.
  unfold bind at 1. rewrite prime_processes_ok.
  unfold bind at 1. unfold call at 1. rewrite Hend.
  unfold bind at 1. unfold call at 1. rewrite Hn.
  unfold bind at 1. unfold call at 1. rewrite Hd.
  unfold set_prev. cbn [logs net_prev disk_prev stdout writes].
  unfold bind at 1. unfold call at 1.
  reflexivity.
Qed.

(** In a run without fault the record is exactly the chain of samples in
    which every tick is measured against the counters of the tick before
    it, the first against the priming counters. *)
Lemma run_complete_exact (W : world) (label dir : string) (T I : Z)
    (c : Q) (n0 : net_counters) (d0 : disk_counters) :
  get_storage_directory W = Ok dir ->
  prime_cpu_percent W = Ok c ->
  prime_process_iter_end W = None ->
  prime_net_io_counters W = Ok n0 ->
  prime_disk_io_counters W = Ok d0 ->
  I <> 0%Z ->
  (forall i, i < scheduled T I -> tick_fault (tick_at W i) = None) ->
  logs (snd (run W label T I))
  = samples_from I (tick_at W) n0 d0 (seq 0 (scheduled T I)).
Proof.
  intros Hdir Hc Hend Hn Hd Hi Hok.
  rewrite (run_started_exact W label dir T I c n0 d0) by assumption.
  destruct (running_complete_exact I (T / I) (tick_at W) (scheduled T I) 0
              (started W label dir n0 d0) Hi)
    as (f1 & Hloop & Hl & _ & _).
  { intros i Hi'. apply Hok. lia. }
  unfold bind at 1, try_except_KeyboardInterrupt. rewrite Hloop, finish_spec.
  cbn [snd logs]. rewrite Hl. reflexivity.
Qed.

(** Rates are tick over tick, not cumulative: in a run without fault the
    first sample is measured against the priming counters, and the sample of
    every later tick against the counters read in the tick before it. *)
Theorem rates_are_tick_over_tick (W : world) (label dir : string) (T I : Z)
    (c : Q) (n0 : net_counters) (d0 : disk_counters) :
  (0 < I)%Z ->
  get_storage_directory W = Ok dir ->
  prime_cpu_percent W = Ok c ->
  prime_process_iter_end W = None ->
  prime_net_io_counters W = Ok n0 ->
  prime_disk_io_counters W = Ok d0 ->
  (forall i, i < scheduled T I -> tick_fault (tick_at W i) = None) ->
  (forall rd0, 0 < scheduled T I -> tick_reads (tick_at W 0) = Ok rd0 ->
     logs (snd (run W label T I)) !! 0
     = Some (assemble I n0 d0 (tick_at W 0) rd0)) /\
  (forall i rd rd', S i < scheduled T I ->
     tick_reads (tick_at W i) = Ok rd ->
     tick_reads (tick_at W (S i)) = Ok rd' ->
     exists s,
       logs (snd (run W label T I)) !! (S i) = Some s /\
       log_ts s = time_time (tick_at W (S i)) /\
       log_disk_r s = round2 (rate (read_bytes (rd_disk rd)) (read_bytes (rd_disk rd')) I) /\
       log_disk_w s = round2 (rate (write_bytes (rd_disk rd)) (write_bytes (rd_disk rd')) I) /\
       log_net_s s = round2 (rate (bytes_sent (rd_net rd)) (bytes_sent (rd_net rd')) I) /\
       log_net_r s = round2 (rate (bytes_recv (rd_net rd)) (bytes_recv (rd_net rd')) I)).
Proof.
  intros HI Hdir Hc Hend Hn Hd Hok.
  rewrite (run_complete_exact W label dir T I c n0 d0) by (assumption || lia).
  split.
  - intros rd0 Hpos Hrd0. destruct (scheduled T I) as [|n]; [lia|].
    now apply samples_from_first.
  - intros i rd rd' Hi Hrd Hrd'.
    exists (assemble I (rd_net rd) (rd_disk rd) (tick_at W (S i)) rd').
    split; [|repeat split].
    apply (samples_from_next I (tick_at W) (scheduled T I) 0 i n0 d0 rd rd');
      [|assumption..].
    intros j Hj. destruct (tick_fault_none (tick_at W j)) as (r & Hr & _);
      [apply Hok; lia | eauto].
Qed.

Lemma rates_are_tick_over_tick_witness :
  exists s,
    logs (snd (run stub_world "pc" 10 5)) !! 1 = Some s /\
    (log_disk_r s == 2 # 10)%Q.
Proof.
  destruct (rates_are_tick_over_tick stub_world "pc" "/home/user/Desktop/Telemetry_Data"
              10 5 0 {| bytes_sent := 0; bytes_recv := 0 |}
              {| read_bytes := 0; write_bytes := 0 |})
    as [_ Hnext]; [lia | reflexivity.. | intros; apply stub_tick_fault |].
  destruct (Hnext 0 (stub_readings 0) (stub_readings 1)) as (s & Hs & _ & Hr & _);
    [vm_compute; lia | reflexivity | reflexivity |].
  exists s. split; [exact Hs|]. rewrite Hr. reflexivity.
Defined.

(** ** What holds of every run *)

Lemma rank_adjacent (processes : list process) :
  adjacent_desc cpu (rank_cpu processes) /\ adjacent_desc mem (rank_mem processes).
Proof. split; apply top10_sorted_adjacent. Qed.

Lemma assemble_ranked (interval : Z) (np : net_counters) (dp : disk_counters)
    (src : tick_source) (rd : readings) :
  ranked_sample (assemble interval np dp src rd).
Proof.
  unfold ranked_sample, wf_sample. cbn [assemble log_top_cpu log_top_mem].
  destruct (ranking_size_bound_aux (collect_processes (process_iter src))) as [Hc Hm].
  destruct (rank_adjacent (collect_processes (process_iter src))) as [Ac Am].
  repeat split; [lia | lia | assumption | assumption].
Qed.

(** Whatever the outside world does, a tick calls no [write_csv] and either
    leaves [logs] alone or appends one ranked sample. *)
Lemma tick_cases (interval samples : Z) (i : nat) (src : tick_source) (f : frame) :
  exists (r : result unit) (f' : frame),
    tick interval samples i src f = (r, f') /\
    writes f' = writes f /\
    (logs f' = logs f \/ exists s, logs f' = logs f ++ [s] /\ ranked_sample s).
Proof.
  destruct (tick_fault src) as [e|] eqn:Hf.
  - destruct (Z.eq_dec interval 0%Z) as [->|Hi].
    + unfold tick, bind, print, call, get, set_prev, logs_append, kb_per_s, truediv.
      cbn [logs net_prev disk_prev stdout writes Z.eqb].
      destruct (sensors_battery src), (cpu_percent_blocking src),
        (virtual_memory src), (net_io_counters src), (disk_io_counters src);
        eexists; eexists; (split; [reflexivity|]); cbn [logs writes]; auto.
    + destruct (tick_raise interval samples i src e f Hi Hf) as (f' & Ht & Hl & Hw & _).
      exists (Raise e), f'. auto.
  - destruct (tick_fault_none src Hf) as (rd & Hrd & Hend).
    destruct (Z.eq_dec interval 0%Z) as [->|Hi].
    + split_reads Hrd.
      unfold tick, bind, print, call, get, set_prev, logs_append, kb_per_s, truediv.
      cbn [logs net_prev disk_prev stdout writes Z.eqb]. rewrite E, E0, E1, E2, E3.
      eexists; eexists; (split; [reflexivity|]); cbn [logs writes]; auto.
    + rewrite (tick_ok interval samples i src rd f Hi Hrd Hend).
      eexists; eexists; (split; [reflexivity|]); cbn [logs writes].
      split; [reflexivity|]. right. eexists. split; [reflexivity|].
      apply assemble_ranked.
Qed.

Lemma running_cases (interval samples : Z) (src : nat -> tick_source)
    (indices : list nat) (f : frame) :
  exists (r : result unit) (f' : frame),
    running interval samples src indices f = (r, f') /\
    writes f' = writes f /\
    (Forall ranked_sample (logs f) -> Forall ranked_sample (logs f')).
Proof.
  revert f. induction indices as [|i rest IH]; intros f.
  - exists (Ok tt), f. auto.
  - destruct (tick_cases interval samples i (src i) f) as (r & f1 & Ht & Hw & Hl).
    unfold running in *. cbn [for_each]. unfold bind at 1. rewrite Ht.
    assert (H1 : Forall ranked_sample (logs f) -> Forall ranked_sample (logs f1)).
    { destruct Hl as [->|(s & -> & Hs)]; [auto|].
      intros H. apply Forall_app. split; [exact H | now constructor]. }
    destruct r as [[]|e].
    + destruct (IH f1) as (r' & f' & Hr & Hw' & Hl').
      exists r', f'. rewrite Hr. split; [reflexivity|]. split; [congruence | auto].
    + exists (Raise e), f1. auto.
Qed.

(** The shape of every run: either no [write_csv] call was made and an
    exception escaped, or exactly one was made, on the final record, and its
    outcome is the run's. *)
Lemma run_shape (W : world) (label : string) (T I : Z) :
  exists (r : result unit) (f : frame),
    run W label T I = (r, f) /\
    Forall ranked_sample (logs f) /\
    ((writes f = [] /\ exists e, r = Raise e) \/
     (exists dir wo,
        get_storage_directory W = Ok dir /\
        writes f = [wo] /\
        wo = write_csv (file_system W) (filename_base W label) label (logs f) dir /\
        r = wo_result wo)).
Proof.
  unfold run, collect_telemetry, priming, floordiv.
  unfold bind at 1. unfold call at 1.
  destruct (get_storage_directory W) as [dir|e];
    [|exists (Raise e), empty_frame; split; [reflexivity|]; cbn; eauto].
  unfold bind at 1. unfold print at 1. cbn [logs net_prev disk_prev stdout writes].
  unfold bind at 1. unfold print at 1. cbn [logs net_prev disk_prev stdout writes].
  unfold bind at 1. unfold logs_reset at 1. cbn [logs net_prev disk_prev stdout writes].
  unfold bind at 1. unfold bind at 1. unfold call at 1.
  destruct (prime_cpu_percent W) as [c|e];
    [|eexists; eexists; split; [reflexivity|]; cbn; eauto].
  unfold bind at 1. rewrite prime_processes_ok.
  unfold bind at 1. unfold call at 1.
  destruct (prime_process_iter_end W) as [e|];
    [eexists; eexists; split; [reflexivity|]; cbn; eauto|].
  unfold bind at 1. unfold call at 1.
  destruct (prime_net_io_counters W) as [n0|e];
    [|eexists; eexists; split; [reflexivity|]; cbn; eauto].
  unfold bind at 1. unfold call at 1.
  destruct (prime_disk_io_counters W) as [d0|e];
    [|eexists; eexists; split; [reflexivity|]; cbn; eauto].
  unfold set_prev. cbn [logs net_prev disk_prev stdout writes].
  unfold bind at 1. unfold call at 1.
  destruct (Z.eqb I 0);
    [eexists; eexists; split; [reflexivity|]; cbn; eauto|].
  set (f0 := {| logs := [] |}).
  destruct (running_cases I (T / I) (tick_at W) (range (T / I)) f0)
    as (r1 & f1 & Hrun & Hw & Hl).
  specialize (Hl (Forall_nil_2 _)). change (writes f0) with (@nil write_outcome) in Hw.
  unfold bind at 1, try_except_KeyboardInterrupt. rewrite Hrun.
  change (call_write_csv (file_system W)
            ("telemetry_" +:+ label +:+ "_" +:+ start_strftime W) label dir;;
          print msg_finished)%py with (finish W label dir).
  destruct r1 as [[]|[|msg]].
  - rewrite finish_spec. eexists; eexists; split; [reflexivity|].
    cbn [logs writes]. rewrite Hw. split; [exact Hl|]. right.
    exists dir. eexists. repeat split; reflexivity.
  - unfold print at 1. rewrite finish_spec. eexists; eexists; split; [reflexivity|].
    cbn [logs writes]. rewrite Hw. split; [exact Hl|]. right.
    exists dir. eexists. repeat split; reflexivity.
  - exists (Raise (Exception msg)), f1. split; [reflexivity|]. eauto.
Qed.

(** In every run, whatever the outside world does and whatever the
    arguments are: each logged sample has rankings of at most ten entries in
    descending order; [write_csv] is called at most once, and then on the
    final record; and the run returns normally only after that one call. *)
Theorem every_run_logs_ranked_samples_and_writes_once (W : world) (label : string)
    (T I : Z) :
  Forall ranked_sample (logs (snd (run W label T I))) /\
  length (writes (snd (run W label T I))) <= 1 /\
  (forall wo, In wo (writes (snd (run W label T I))) ->
              wo_logs wo = logs (snd (run W label T I))) /\
  (fst (run W label T I) = Ok tt -> length (writes (snd (run W label T I))) = 1).
Proof.
  destruct (run_shape W label T I) as (r & f & -> & Hl & Hw). cbn [fst snd].
  split; [exact Hl|].
  destruct Hw as [(-> & e & ->)|(dir & wo & _ & -> & -> & ->)]; cbn [length In].
  - repeat split; [lia | tauto | discriminate].
  - repeat split; [lia|].
    intros wo [<-|[]]. apply write_csv_logs.
Qed.

(** The loop never builds a row that [DictWriter] rejects: when no call on
    the output file raises ([open] and every write succeed, so no I/O error
    and no cell the file cannot encode), the one write of a run succeeds and
    the file is the header followed by one row per logged sample, in order. *)
Theorem run_write_succeeds_when_no_file_call_raises (W : world) (label : string)
    (T I : Z) (wo : write_outcome) :
  file_system W = IoFine ->
  In wo (writes (snd (run W label T I))) ->
  fst (run W label T I) = Ok tt /\
  wo_result wo = Ok tt /\
  wo_file wo = Some (header :: map (row_cells label) (logs (snd (run W label T I)))).
Proof.
  intros Hio.
  destruct (run_shape W label T I) as (r & f & -> & Hl & Hw). cbn [fst snd].
  destruct Hw as [(-> & _)|(dir & wo' & _ & -> & Hwo & ->)]; [intros []|].
  intros [<-|[]]. rewrite Hwo, Hio, write_csv_fine; [auto|].
  eapply Forall_impl; [exact Hl|]. now intros s [Hs _].
Qed.

Lemma cancelled_write_logged :
  In (write_csv IoFine (filename_base cancelled_world "pc") "pc"
        (logs (snd (run cancelled_world "pc" 10 5)))
        "/home/user/Desktop/Telemetry_Data")
     (writes (snd (run cancelled_world "pc" 10 5))).
Proof. vm_compute. left. reflexivity. Qed.

Lemma cancelled_table_rows :
  option_map (@length (list cell))
    (Some (header :: map (row_cells "pc") (logs (snd (run cancelled_world "pc" 10 5)))))
  = Some 2.
Proof. vm_compute. reflexivity. Qed.

Lemma run_write_succeeds_when_no_file_call_raises_witness :
  exists wo,
    In wo (writes (snd (run cancelled_world "pc" 10 5))) /\
    wo_result wo = Ok tt /\
    option_map (@length (list cell)) (wo_file wo) = Some 2.
Proof.
  eexists. split; [exact cancelled_write_logged|].
  destruct (run_write_succeeds_when_no_file_call_raises cancelled_world "pc" 10 5 _
              eq_refl cancelled_write_logged) as (_ & Hr & Hf).
  split; [exact Hr|]. rewrite Hf. exact cancelled_table_rows.
Defined.

(** A zero interval is a [ZeroDivisionError] at line 125, before the [try]:
    it escapes [collect_telemetry] after priming, with nothing logged and no
    [write_csv] call. *)
Theorem zero_interval_raises_before_the_loop (W : world) (label : string) (T : Z) :
  startup_ok W ->
  exists (dir : string) (f : frame),
    get_storage_directory W = Ok dir /\
    run W label T 0 = (Raise (Exception "integer division or modulo by zero"), f) /\
    logs f = [] /\ writes f = [] /\ stdout f = banner W label dir.
Proof.
  intros ((dir & Hdir) & (c & Hc) & Hend & (n0 & Hn) & (d0 & Hd)).
  exists dir. eexists. split; [exact Hdir|].
  unfold run, collect_telemetry, priming, floordiv.
  unfold bind at 1. unfold call at 1. rewrite Hdir.
  unfold bind at 1. unfold print at 1. cbn [logs net_prev disk_prev stdout writes].
  unfold bind at 1. unfold print at 1. cbn [logs net_prev disk_prev stdout writes].
  unfold bind at 1. unfold logs_reset at 1. cbn [logs net_prev disk_prev stdout writes].
  unfold bind at 1. unfold bind at 1. unfold call at 1. rewrite Hc.
  unfold bind at 1. rewrite prime_processes_ok.
  unfold bind at 1. unfold call at 1. rewrite Hend.
  unfold bind at 1. unfold call at 1. rewrite Hn.
  unfold bind at 1. unfold call at 1. rewrite Hd.
  unfold set_prev. cbn [logs net_prev disk_prev stdout writes].
  unfold bind at 1. unfold call at 1. cbn [Z.eqb].
  split; [reflexivity|]. cbn [logs writes stdout]. auto.
Qed.

Lemma zero_interval_raises_before_the_loop_witness :
  exists (f : frame),
    run stub_world "pc" 10 0 = (Raise (Exception "integer division or modulo by zero"), f) /\
    writes f = [].
Proof.
  destruct (zero_interval_raises_before_the_loop stub_world "pc" 10
              (stub_startup_ok stub_tick)) as (dir & f & _ & Hrun & _ & Hw & _).
  exists f. auto.
Defined.

Lemma scheduled_short (T I : Z) : (0 < I)%Z -> (T < I)%Z -> scheduled T I = 0.
Proof.
  intros HI HT. unfold scheduled.
  assert (T / I < 1)%Z by (apply Z.div_lt_upper_bound; lia).
  lia.
Qed.

(** A duration shorter than one interval (zero and negative durations
    included) schedules no tick: no progress line is printed, the record
    stays empty and [write_csv] is still called once, leaving a header-only
    file when the file system raises nothing. *)
Theorem short_duration_writes_header_only (W : world) (label : string) (T I : Z) :
  (0 < I)%Z -> (T < I)%Z ->
  startup_ok W ->
  exists (dir : string) (f : frame) (wo : write_outcome),
    run W label T I = (wo_result wo, f) /\
    logs f = [] /\
    writes f = [wo] /\
    wo = write_csv (file_system W) (filename_base W label) label [] dir /\
    stdout f = banner W label dir ++ wo_stdout wo
               ++ match wo_result wo with
                  | Ok _ => [msg_finished]
                  | Raise _ => []
                  end /\
    (file_system W = IoFine -> wo_result wo = Ok tt /\ wo_file wo = Some [header]).
Proof.
  intros HI HT Hs.
  pose proof (scheduled_short T I HI HT) as H0.
  destruct (run_complete W label T I Hs ltac:(lia)) as (dir & f1 & Hdir & Hrun & Hts & Hout & Hw).
  { intros i Hi. lia. }
  rewrite H0 in Hts, Hout. cbn [seq map] in Hts, Hout. rewrite app_nil_r in Hout.
  assert (Hl : logs f1 = []) by (now destruct (logs f1)).
  exists dir. eexists. eexists. rewrite Hrun, finish_spec.
  split; [reflexivity|]. cbn [logs stdout writes]. rewrite Hl, Hw, Hout.
  split; [reflexivity|]. split; [reflexivity|]. split; [reflexivity|].
  split; [reflexivity|].
  intros ->. split; reflexivity.
Qed.

Lemma short_duration_writes_header_only_witness :
  exists (f : frame) (wo : write_outcome),
    run stub_world "pc" (-7) 5 = (Ok tt, f) /\
    logs f = [] /\ writes f = [wo] /\ wo_file wo = Some [header].
Proof.
  destruct (short_duration_writes_header_only stub_world "pc" (-7) 5)
    as (dir & f & wo & Hrun & Hl & Hw & _ & _ & Hio);
    [lia | lia | apply (stub_startup_ok stub_tick) |].
  destruct (Hio eq_refl) as [Hr Hf]. rewrite Hr in Hrun.
  exists f, wo. auto.
Defined.

(** ** Priming and the banner *)

(** The priming readings are discarded: neither the value of the first CPU
    reading nor the outcome of any per-process priming read (a raised
    exception included) changes anything the run does afterwards. *)
Theorem priming_readings_are_discarded (W : world) (label : string) (T I : Z)
    (c c' : Q) (reads reads' : list (result Q)) :
  run (with_priming c reads W) label T I = run (with_priming c' reads' W) label T I.
Proof.
  unfold run, collect_telemetry, priming.
  cbn [with_priming get_storage_directory start_strftime prime_cpu_percent
       prime_process_iter prime_process_iter_end prime_net_io_counters
       prime_disk_io_counters tick_at file_system].
  destruct (get_storage_directory W) as [dir|e];
    cbv beta iota zeta delta [bind call print logs_reset]; [|reflexivity].
  rewrite !prime_processes_ok. reflexivity.
Qed.

Lemma tick_prints_one_line (interval samples : Z) (i : nat) (src : tick_source)
    (f : frame) :
  stdout (snd (tick interval samples i src f)) = stdout f ++ [progress samples i].
Proof.
  unfold tick, bind, print, call, get, set_prev, logs_append, kb_per_s, truediv,
    enumerate_processes.
  cbn [logs net_prev disk_prev stdout writes].
  destruct (sensors_battery src); [|reflexivity].
  destruct (cpu_percent_blocking src); [|reflexivity].
  destruct (virtual_memory src); [|reflexivity].
  destruct (net_io_counters src); [|reflexivity].
  destruct (disk_io_counters src); [|reflexivity].
  destruct (Z.eqb interval 0); [reflexivity|].
  destruct (process_iter_end src); reflexivity.
Qed.

Lemma running_stdout_extends (interval samples : Z) (src : nat -> tick_source)
    (indices : list nat) (f : frame) :
  exists more,
    stdout (snd (running interval samples src indices f)) = stdout f ++ more.
Proof.
  revert f. induction indices as [|i rest IH]; intros f.
  - exists []. cbn. now rewrite app_nil_r.
  - unfold running in *. cbn [for_each]. unfold bind at 1.
    pose proof (tick_prints_one_line interval samples i (src i) f) as Ht.
    destruct (tick interval samples i (src i) f) as [[[]|e] f1]; cbn [snd] in Ht.
    + destruct (IH f1) as (more & Hm). rewrite Hm, Ht, <- app_assoc. eauto.
    + cbn [snd]. eauto.
Qed.

Lemma write_csv_path (io : io_script) (base label folder : string)
    (logs : list sample) :
  wo_path (write_csv io base label logs folder)
  = path_join folder (base +:+ "_metrics.csv").
Proof.
  unfold write_csv.
  destruct io; cbn;
    repeat match goal with
           | |- context [match ?x with _ => _ end] => destruct x; cbn
           | |- context [if ?x then _ else _] => destruct x; cbn
           end; reflexivity.
Qed.

(** Once the storage directory is resolved, the first two lines a run prints
    are the banner, whatever happens afterwards. *)
Lemma run_prints_banner_first (W : world) (label dir : string) (T I : Z) :
  get_storage_directory W = Ok dir ->
  exists rest, stdout (snd (run W label T I)) = banner W label dir ++ rest.
Proof.
  intros Hdir. unfold run, collect_telemetry, priming, floordiv.
  unfold bind at 1. unfold call at 1. rewrite Hdir.
  unfold bind at 1. unfold print at 1. cbn [logs net_prev disk_prev stdout writes].
  unfold bind at 1. unfold print at 1. cbn [logs net_prev disk_prev stdout writes].
  unfold bind at 1. unfold logs_reset at 1. cbn [logs net_prev disk_prev stdout writes].
  unfold bind at 1. unfold bind at 1. unfold call at 1.
  destruct (prime_cpu_percent W) as [c|e]; [|exists []; rewrite app_nil_r; reflexivity].
  unfold bind at 1. rewrite prime_processes_ok.
  unfold bind at 1. unfold call at 1.
  destruct (prime_process_iter_end W) as [e|]; [exists []; rewrite app_nil_r; reflexivity|].
  unfold bind at 1. unfold call at 1.
  destruct (prime_net_io_counters W) as [n0|e]; [|exists []; rewrite app_nil_r; reflexivity].
  unfold bind at 1. unfold call at 1.
  destruct (prime_disk_io_counters W) as [d0|e]; [|exists []; rewrite app_nil_r; reflexivity].
  unfold set_prev. cbn [logs net_prev disk_prev stdout writes].
  unfold bind at 1. unfold call at 1.
  destruct (Z.eqb I 0); [exists []; rewrite app_nil_r; reflexivity|].
  set (f0 := {| logs := [] |}).
  destruct (running_stdout_extends I (T / I) (tick_at W) (range (T / I)) f0)
    as (more & Hm).
  change (stdout f0) with (banner W label dir) in Hm.
  unfold bind at 1, try_except_KeyboardInterrupt.
  change (call_write_csv (file_system W)
            ("telemetry_" +:+ label +:+ "_" +:+ start_strftime W) label dir;;
          print msg_finished)%py with (finish W label dir).
  destruct (running I (T / I) (tick_at W) (range (T / I)) f0) as [[[]|[|msg]] f1];
    cbn [snd] in Hm.
  - rewrite finish_spec. cbn [snd stdout]. rewrite Hm, <- app_assoc. eauto.
  - unfold print at 1. rewrite finish_spec. cbn [snd stdout].
    rewrite Hm, <- !app_assoc. eauto.
  - cbn [snd]. eauto.
Qed.

(** The file [write_csv] addresses is the one announced when the run began:
    the path built at line 107 and the path built at line 50 agree. *)
Theorem announced_path_is_the_written_path (W : world) (label : string) (T I : Z)
    (wo : write_outcome) :
  In wo (writes (snd (run W label T I))) ->
  exists rest, stdout (snd (run W label T I)) = announce (wo_path wo) :: rest.
Proof.
  intros Hin.
  destruct (run_shape W label T I) as (r & f & Hrun & _ & Hw).
  destruct Hw as [(Hw & _)|(dir & wo' & Hdir & Hw & Hwo & _)];
    rewrite Hrun in Hin; cbn [snd] in Hin; rewrite Hw in Hin; [destruct Hin|].
  destruct Hin as [<-|[]].
  destruct (run_prints_banner_first W label dir T I Hdir) as (rest & Hb).
  rewrite Hb, Hwo, write_csv_path. unfold banner. cbn [app]. eauto.
Qed.

Lemma announced_path_is_the_written_path_witness :
  exists rest,
    stdout (snd (run cancelled_world "pc" 10 5))
    = announce "/home/user/Desktop/Telemetry_Data/telemetry_pc_20240101_000000_metrics.csv"
      :: rest.
Proof.
  destruct (announced_path_is_the_written_path cancelled_world "pc" 10 5 _
              cancelled_write_logged) as (rest & Hr).
  exists rest. rewrite Hr. reflexivity.
Defined.

(** ** More of [write_csv] *)

Lemma write_rows_ok_or_raise (io : io_script) (label : string) (logs : list sample)
    (n : nat) (written t : table) (e : exn) :
  write_rows io n label logs written = (Raise e, t) ->
  is_Exception e = true \/ exists k, io = IoWriteFails k e.
Proof.
  revert n written. induction logs as [|log logs IH]; intros n written H.
  - discriminate.
  - cbn [write_rows] in H. unfold writerow in H.
    destruct (dict_to_list fields (build_row label log)) as [cells|e'] eqn:Hd.
    + destruct (emit io n cells written) as [[[]|e'] w1] eqn:He.
      * eauto.
      * injection H as <- _. right. unfold emit in He.
        destruct io as [| |k e2]; [discriminate..|].
        destruct (Nat.eqb k n); [|discriminate]. injection He as <- _. eauto.
    + injection H as <- _. left. eauto using dict_to_list_raises.
Qed.

(** [write_csv] lets no [Exception] escape: if it raises at all, what it
    raises is a [KeyboardInterrupt] that the file system raised during the
    write, and then it has printed nothing. *)
Theorem write_csv_raises_only_an_interrupt (io : io_script)
    (base label folder : string) (logs : list sample) (e : exn) :
  wo_result (write_csv io base label logs folder) = Raise e ->
  e = KeyboardInterrupt /\
  wo_stdout (write_csv io base label logs folder) = [] /\
  (io = IoOpenFails KeyboardInterrupt \/ exists n, io = IoWriteFails n KeyboardInterrupt).
Proof.
  unfold write_csv, writeheader.
  destruct io as [| e0 | k e0].
  - cbn [emit app].
    destruct (write_rows IoFine 1 label logs [map CStr fields]) as [[[]|e1] t] eqn:Hw;
      [discriminate|].
    destruct (write_rows_ok_or_raise _ _ _ _ _ _ _ Hw) as [He|(k & Hk)]; [|discriminate].
    rewrite He. discriminate.
  - destruct e0 as [|msg]; cbn; [|discriminate]. intros [= <-]. repeat split; eauto.
  - destruct k as [|k].
    + destruct e0 as [|msg]; cbn; [|discriminate]. intros [= <-]. repeat split; eauto.
    + cbn [emit Nat.eqb app].
      destruct (write_rows (IoWriteFails (S k) e0) 1 label logs [map CStr fields])
        as [[[]|e1] t] eqn:Hw; [discriminate|].
      destruct (write_rows_ok_or_raise _ _ _ _ _ _ _ Hw) as [He|(k' & Hk)].
      * rewrite He. discriminate.
      * injection Hk as _ <-. destruct e0 as [|msg]; cbn; [|discriminate].
        intros [= <-]. repeat split; eauto.
Qed.

Lemma write_csv_raises_only_an_interrupt_witness :
  wo_stdout (write_csv (IoWriteFails 1 KeyboardInterrupt) "b" "pc" [stub_sample] "d") = [] /\
  wo_file (write_csv (IoWriteFails 1 KeyboardInterrupt) "b" "pc" [stub_sample] "d")
  = Some [header].
Proof.
  split; [|reflexivity].
  apply (write_csv_raises_only_an_interrupt (IoWriteFails 1 KeyboardInterrupt)
           "b" "pc" "d" [stub_sample] KeyboardInterrupt).
  reflexivity.
Defined.

Lemma fill_slots_keeps (kind : string) (value : process -> Q) (ps : list process) :
  forall (i : nat) (row : gmap string cell) (k : string),
  is_Some (row !! k) -> is_Some (fill_slots kind value i ps row !! k).
Proof.
  induction ps as [|p ps IH]; intros i row k Hk; [exact Hk|].
  cbn [fill_slots]. apply IH.
  rewrite !lookup_insert_is_Some'. auto.
Qed.

Lemma fill_slots_sets (kind : string) (value : process -> Q) (ps : list process) :
  forall (i j : nat) (row : gmap string cell),
  j < length ps ->
  is_Some (fill_slots kind value i ps row !! slot_field kind (i + j) "pid").
Proof.
  induction ps as [|p ps IH]; intros i j row Hj; [cbn in Hj; lia|].
  cbn [fill_slots]. destruct j as [|j].
  - rewrite Nat.add_0_r. apply fill_slots_keeps.
    rewrite !lookup_insert_is_Some'. auto.
  - replace (i + S j) with (S i + j) by lia. apply IH. cbn in Hj. lia.
Qed.

Lemma dict_to_list_extra_key (row : gmap string cell) (k : string) :
  is_Some (row !! k) -> bool_decide (k ∈ fields) = false ->
  dict_to_list fields row = Raise (Exception "dict contains fields not in fieldnames").
Proof.
  intros [v Hv] Hk. unfold dict_to_list.
  destruct (forallb _ _) eqn:Hall; [|reflexivity].
  rewrite forallb_forall in Hall.
  assert (Hin : In k (map fst (map_to_list row))).
  { apply in_map_iff. exists (k, v). split; [reflexivity|].
    apply list_elem_of_In, elem_of_map_to_list, Hv. }
  apply Hall in Hin. congruence.
Qed.

(** A sample with more than ten entries in a ranking has a key outside the
    header: [DictWriter] rejects its row with a [ValueError]. *)
Lemma overlong_row_rejected (label : string) (log : sample) :
  10 < length (log_top_cpu log) \/ 10 < length (log_top_mem log) ->
  dict_to_list fields (build_row label log)
  = Raise (Exception "dict contains fields not in fieldnames").
Proof.
  intros [H|H]; unfold build_row.
  - apply (dict_to_list_extra_key _ (slot_field "cpu" 11 "pid")); [|reflexivity].
    apply fill_slots_keeps. apply (fill_slots_sets "cpu" cpu _ 1 10). lia.
  - apply (dict_to_list_extra_key _ (slot_field "mem" 11 "pid")); [|reflexivity].
    apply (fill_slots_sets "mem" mem _ 1 10). lia.
Qed.

(** A record that holds a sample with more than ten ranking entries is
    written up to that sample only: [write_csv] keeps the header and the
    rows before it, prints the failure and returns normally; the rows after
    it are lost. *)
Theorem overlong_ranking_truncates_the_table (base label folder : string)
    (good rest : list sample) (bad : sample) :
  Forall wf_sample good ->
  10 < length (log_top_cpu bad) \/ 10 < length (log_top_mem bad) ->
  let wo := write_csv IoFine base label (good ++ bad :: rest) folder in
  wo_result wo = Ok tt /\
  (exists msg, wo_stdout wo = ["[!] Failed to write CSV: " +:+ msg]) /\
  wo_file wo = Some (header :: map (row_cells label) good).
Proof.
  intros Hgood Hbad. cbv zeta.
  assert (Hrows : forall n written,
             write_rows IoFine n label (good ++ bad :: rest) written
             = (Raise (Exception "dict contains fields not in fieldnames"),
                written ++ map (row_cells label) good)).
  { induction Hgood as [|log good Hlog _ IH]; intros n written.
    - cbn [app write_rows map]. unfold writerow.
      rewrite (overlong_row_rejected label bad Hbad). now rewrite app_nil_r.
    - cbn [app write_rows map]. unfold writerow.
      rewrite (build_row_cells label log Hlog). cbn [emit].
      rewrite IH, <- app_assoc. reflexivity. }
  unfold write_csv, writeheader. cbn [emit app]. rewrite Hrows.
  split; [reflexivity|]. split; [eexists|]; reflexivity.
Qed.

Lemma overlong_ranking_truncates_the_table_witness :
  wo_file (write_csv IoFine "b" "pc" [stub_sample; overlong_sample; stub_sample] "d")
  = Some [header; row_cells "pc" stub_sample].
Proof.
  apply (overlong_ranking_truncates_the_table "b" "pc" "d" [stub_sample] [stub_sample]
           overlong_sample).
  - constructor; [|constructor]. split; vm_compute; lia.
  - left. vm_compute. lia.
Defined.

(** ** More of the ranking and of the stored rates *)

Lemma StronglySorted_app_cross {A : Type} (R : A -> A -> Prop) (l1 l2 : list A) :
  StronglySorted R (l1 ++ l2) ->
  forall x y, In x l1 -> In y l2 -> R x y.
Proof.
  induction l1 as [|a l1 IH]; intros Hs x y Hx Hy; [destruct Hx|].
  cbn [app] in Hs. apply StronglySorted_inv in Hs as [Hs Ha].
  destruct Hx as [<-|Hx]; [|now apply IH].
  rewrite List.Forall_forall in Ha. apply Ha, in_or_app. now right.
Qed.

Lemma take_drop_dominates {A : Type} (key : A -> Q) (n : nat) (s : list A) :
  StronglySorted (descending key) s ->
  forall x y, In x (take n s) -> In y (drop n s) -> (key y <= key x)%Q.
Proof.
  intros Hs x y Hx Hy. rewrite <- (take_drop n s) in Hs.
  exact (StronglySorted_app_cross _ _ _ Hs x y Hx Hy).
Qed.

(** The rankings select the highest values: the processes split into the
    ranked ones and the rest, and no process left out of [top_cpu] has a
    higher CPU share than a ranked one; likewise for [top_mem] and the memory
    share. *)
Theorem ranked_processes_dominate_the_rest (processes : list process) :
  (exists rest,
     Permutation (rank_cpu processes ++ rest) processes /\
     forall x y, In x (rank_cpu processes) -> In y rest -> (cpu y <= cpu x)%Q) /\
  (exists rest,
     Permutation (rank_mem processes ++ rest) processes /\
     forall x y, In x (rank_mem processes) -> In y rest -> (mem y <= mem x)%Q).
Proof.
  unfold rank_cpu, rank_mem, top10. split.
  - destruct (sorted_reverse_stable cpu processes) as (Hp & Hs & _).
    exists (drop 10 (sorted cpu true processes)). rewrite take_drop.
    split; [exact Hp | now apply take_drop_dominates].
  - destruct (sorted_reverse_stable mem processes) as (Hp & Hs & _).
    exists (drop 10 (sorted mem true processes)). rewrite take_drop.
    split; [exact Hp | now apply take_drop_dominates].
Qed.

Lemma round_half_even_nonneg (y : Q) : (0 <= y)%Q -> (0 <= round_half_even y)%Z.
Proof.
  intros Hy. unfold round_half_even.
  assert (0 <= Qfloor y)%Z by (change 0%Z with (Qfloor 0); now apply Qfloor_resp_le).
  destruct (y - inject_Z (Qfloor y) ?= 1 # 2)%Q; [destruct (Z.even _)|..]; lia.
Qed.

Lemma round_half_even_nonpos (y : Q) : (y <= 0)%Q -> (round_half_even y <= 0)%Z.
Proof.
  intros Hy. unfold round_half_even.
  pose proof (Qfloor_le y) as Hlo. pose proof (Qlt_floor y) as Hhi.
  assert (Hf : (Qfloor y <= 0)%Z) by (change 0%Z with (Qfloor 0); now apply Qfloor_resp_le).
  destruct (y - inject_Z (Qfloor y) ?= 1 # 2)%Q eqn:Hc; [destruct (Z.even _)|..];
    try lia.
  - destruct (Z.eq_dec (Qfloor y) 0%Z) as [E|]; [|lia].
    rewrite E in Hc. apply Qeq_alt in Hc. change (inject_Z 0) with 0%Q in Hc. lra.
  - destruct (Z.eq_dec (Qfloor y) 0%Z) as [E|]; [|lia].
    rewrite E in Hc. apply Qgt_alt in Hc. change (inject_Z 0) with 0%Q in Hc. lra.
Qed.

Lemma round2_sign (x : Q) :
  ((0 <= x)%Q -> (0 <= round2 x)%Q) /\ ((x <= 0)%Q -> (round2 x <= 0)%Q).
Proof.
  unfold round2, Qdiv. change (/ 100)%Q with (1 # 100)%Q. split; intros Hx.
  - assert (H : (0 <= round_half_even (x * 100))%Z) by (apply round_half_even_nonneg; lra).
    assert (0 <= inject_Z (round_half_even (x * 100)))%Q
      by (change 0%Q with (inject_Z 0); now rewrite <- Zle_Qle).
    lra.
  - assert (H : (round_half_even (x * 100) <= 0)%Z) by (apply round_half_even_nonpos; lra).
    assert (inject_Z (round_half_even (x * 100)) <= 0)%Q
      by (change 0%Q with (inject_Z 0); now rewrite <- Zle_Qle).
    lra.
Qed.

(** The stored rate never changes the sign of the counter delta: a counter
    that did not decrease is stored as a non-negative rate, a counter that
    went backwards as a rate that is not positive, and equal readings as
    exactly zero. *)
Theorem stored_rate_keeps_the_sign (interval samples : Z) (i : nat)
    (src : tick_source) (rd : readings) (f : frame) :
  (0 < interval)%Z ->
  tick_reads src = Ok rd ->
  process_iter_end src = None ->
  exists (s : sample) (f' : frame),
    tick interval samples i src f = (Ok tt, f') /\
    logs f' = logs f ++ [s] /\
    ((read_bytes (disk_prev f) <= read_bytes (rd_disk rd))%Z -> (0 <= log_disk_r s)%Q) /\
    ((read_bytes (rd_disk rd) <= read_bytes (disk_prev f))%Z -> (log_disk_r s <= 0)%Q) /\
    ((write_bytes (disk_prev f) <= write_bytes (rd_disk rd))%Z -> (0 <= log_disk_w s)%Q) /\
    ((write_bytes (rd_disk rd) <= write_bytes (disk_prev f))%Z -> (log_disk_w s <= 0)%Q) /\
    ((bytes_sent (net_prev f) <= bytes_sent (rd_net rd))%Z -> (0 <= log_net_s s)%Q) /\
    ((bytes_sent (rd_net rd) <= bytes_sent (net_prev f))%Z -> (log_net_s s <= 0)%Q) /\
    ((bytes_recv (net_prev f) <= bytes_recv (rd_net rd))%Z -> (0 <= log_net_r s)%Q) /\
    ((bytes_recv (rd_net rd) <= bytes_recv (net_prev f))%Z -> (log_net_r s <= 0)%Q).
Proof.
  intros Hi Hrd Hend.
  assert (Hpos : forall p c, (p <= c)%Z -> (0 <= round2 (rate p c interval))%Q).
  { intros p c H. apply round2_sign. now apply rate_nonneg. }
  assert (Hneg : forall p c, (c <= p)%Z -> (round2 (rate p c interval) <= 0)%Q).
  { intros p c H. apply round2_sign.
    destruct (Z.eq_dec c p) as [->|Hne].
    - unfold rate. rewrite Z.sub_diag. unfold Qdiv. rewrite !Qmult_0_l. apply Qle_refl.
    - apply Qlt_le_weak, rate_negative; lia. }
  exists (assemble interval (net_prev f) (disk_prev f) src rd). eexists.
  split; [exact (tick_ok interval samples i src rd f ltac:(lia) Hrd Hend)|].
  cbn [logs assemble log_disk_r log_disk_w log_net_s log_net_r].
  split; [reflexivity|]. repeat split; auto.
Qed.

Lemma stored_rate_keeps_the_sign_witness :
  exists (s : sample) (f' : frame),
    tick 5 2 0 (stub_tick 0) empty_frame = (Ok tt, f') /\
    (0 <= log_disk_r s)%Q /\ (log_disk_w s <= 0)%Q /\ (0 <= log_disk_w s)%Q.
Proof.
  destruct (stored_rate_keeps_the_sign 5 2 0 (stub_tick 0) (stub_readings 0) empty_frame)
    as (s & f' & Ht & _ & Hr & _ & Hw1 & Hw2 & _); [lia | reflexivity | reflexivity |].
  exists s, f'. split; [exact Ht|].
  split; [apply Hr; vm_compute; discriminate|].
  split; [apply Hw2 | apply Hw1]; vm_compute; discriminate.
Defined.

(** ** The storage directory *)

Lemma node_at_cons (fs : gmap (list string) Storage.node) (c : string)
    (p : Storage.path) :
  Storage.node_at fs (c :: p) = fs !! (c :: p).
Proof. reflexivity. Qed.

Lemma is_dir_cons (fs : gmap (list string) Storage.node) (c : string)
    (p : Storage.path) :
  Storage.is_dir fs (c :: p)
  = match fs !! (c :: p) with Some Storage.Dir => true | _ => false end.
Proof. reflexivity. Qed.

Lemma is_FileNotFoundError_cases :
  Storage.is_FileNotFoundError Storage.FileNotFoundError = true /\
  Storage.is_FileNotFoundError Storage.FileExistsError = false /\
  Storage.is_FileNotFoundError Storage.NotADirectoryError = false.
Proof. repeat split. Qed.

Ltac step_mkdir H :=
  destruct is_FileNotFoundError_cases as (Hfnf1 & Hfnf2 & Hfnf3);
  cbv beta iota zeta in H;
  rewrite ?Hfnf1, ?Hfnf2, ?Hfnf3 in H;
  cbv beta iota zeta in H;
  clear Hfnf1 Hfnf2 Hfnf3.

Lemma tree_child_absent (fs : gmap (list string) Storage.node) (c : string)
    (parent : Storage.path) :
  Storage.tree fs ->
  Storage.node_at fs parent <> Some Storage.Dir ->
  fs !! (c :: parent) = None.
Proof.
  intros Ht Hp. destruct (fs !! (c :: parent)) as [k|] eqn:E; [|reflexivity].
  apply Ht in E. contradiction.
Qed.

Lemma tree_insert (fs : gmap (list string) Storage.node) (c : string)
    (parent : Storage.path) :
  Storage.tree fs ->
  Storage.node_at fs parent = Some Storage.Dir ->
  Storage.tree (<[c :: parent := Storage.Dir]> fs).
Proof.
  intros Ht Hp q k Hq.
  assert (Hkeep : forall r, Storage.node_at fs r = Some Storage.Dir ->
                            Storage.node_at (<[c :: parent := Storage.Dir]> fs) r
                            = Some Storage.Dir).
  { intros [|d r] Hr; [reflexivity|]. rewrite node_at_cons in *.
    destruct (decide (c :: parent = d :: r)) as [<-|Hne];
      [apply lookup_insert_eq | now rewrite lookup_insert_ne]. }
  apply lookup_insert_Some in Hq as [[<- _]|[_ Hq]].
  - now apply Hkeep.
  - specialize (Ht q k Hq). destruct q as [|d r]; [exact Ht | now apply Hkeep].
Qed.

(** What [Path.mkdir(parents=True, exist_ok=True)] does to a tree: it stays
    a tree, nothing that existed is touched, only [p] and its ancestors can
    be new, a failure changes nothing and a success leaves [p] a directory. *)
Lemma mkdir_parents_spec (p : Storage.path) :
  forall (fs fs' : gmap (list string) Storage.node) (r : result unit),
  Storage.tree fs ->
  Storage.mkdir_parents p fs = (r, fs') ->
  Storage.tree fs' /\
  (forall q k, fs !! q = Some k -> fs' !! q = Some k) /\
  (forall q, fs' !! q <> fs !! q -> exists pre, p = pre ++ q) /\
  match r with
  | Ok _ => Storage.is_dir fs' p = true
  | Raise _ => fs' = fs
  end.
Proof.
  induction p as [|c parent IH]; intros fs fs' r Ht H.
  - cbn in H. injection H as <- <-.
      split; [exact Ht|]; split; [auto|]; split; [congruence|]; reflexivity.
  - cbn [Storage.mkdir_parents Storage.os_mkdir] in H.
    destruct (Storage.node_at fs parent) as [[|]|] eqn:Hp.
    + (* the parent is a regular file *)
      step_mkdir H. rewrite is_dir_cons in H.
      rewrite (tree_child_absent fs c parent Ht) in H by congruence.
      injection H as <- <-.
      split; [exact Ht|]; split; [auto|]; split; [congruence|]; reflexivity.
    + (* the parent is a directory *)
      destruct (fs !! (c :: parent)) as [k|] eqn:Hc.
      * step_mkdir H. rewrite is_dir_cons, Hc in H.
        destruct k; injection H as <- <-;
          (split; [exact Ht|]; split; [auto|]; split; [congruence|]);
          [reflexivity|].
        now rewrite is_dir_cons, Hc.
      * step_mkdir H. injection H as <- <-. split; [now apply tree_insert|].
        split; [|split].
        -- intros q k Hq. rewrite lookup_insert_ne; [exact Hq | congruence].
        -- intros q Hq. exists []. cbn.
           destruct (decide (c :: parent = q)) as [E|Hne]; [exact E|].
           now rewrite lookup_insert_ne in Hq.
        -- now rewrite is_dir_cons, lookup_insert_eq.
    + (* the parent is missing: create it first *)
      step_mkdir H.
      destruct (Storage.mkdir_parents parent fs) as [[[]|e1] fs1] eqn:Hrec.
      * destruct (IH fs fs1 (Ok tt) Ht Hrec) as (Ht1 & Hmono & Hnew & Hdir).
        unfold Storage.is_dir in Hdir.
        destruct (Storage.node_at fs1 parent) as [[|]|] eqn:Hp1; try discriminate.
        assert (Hc0 : fs !! (c :: parent) = None)
          by (apply (tree_child_absent fs c parent Ht); congruence).
        assert (Hc1 : fs1 !! (c :: parent) = None).
        { destruct (fs1 !! (c :: parent)) as [k|] eqn:E1; [exfalso|reflexivity].
          destruct (Hnew (c :: parent)) as (pre & Hpre).
          - rewrite E1, Hc0; congruence.
          - apply (f_equal (@length string)) in Hpre.
            rewrite length_app in Hpre. cbn in Hpre. lia. }
        unfold Storage.mkdir_exist_ok, Storage.os_mkdir in H. rewrite Hp1, Hc1 in H.
        step_mkdir H.
        injection H as <- <-. split; [now apply tree_insert|].
        split; [|split].
        -- intros q k Hq. rewrite lookup_insert_ne; [now apply Hmono | congruence].
        -- intros q Hq. destruct (decide (c :: parent = q)) as [E|Hne];
             [now exists [] |].
           rewrite lookup_insert_ne in Hq by exact Hne.
           apply Hnew in Hq as (pre & ->). now exists (c :: pre).
        -- now rewrite is_dir_cons, lookup_insert_eq.
      * destruct (IH fs fs1 (Raise e1) Ht Hrec) as (_ & _ & _ & ->).
        injection H as <- <-.
      split; [exact Ht|]; split; [auto|]; split; [congruence|]; reflexivity.
Qed.

Lemma storage_unfold (home : list string) (fs : gmap (list string) Storage.node) :
  Storage.get_storage_directory home fs
  = let folder := Storage.DATA_FOLDER_NAME
                  :: (if Storage.exists_ fs ("Desktop" :: home)
                      then "Desktop" :: home else home) in
    match Storage.mkdir_parents folder fs with
    | (Ok _, fs') => (Ok folder, fs')
    | (Raise e, fs') => (Raise e, fs')
    end.
Proof. reflexivity. Qed.

(** On success the folder returned is [Telemetry_Data] under the Desktop
    when a Desktop entry exists and under the home directory otherwise; it
    is a directory afterwards, and nothing that existed before has changed. *)
Theorem storage_directory_exists_afterwards (home folder : list string)
    (fs fs' : gmap (list string) Storage.node) :
  Storage.tree fs ->
  Storage.get_storage_directory home fs = (Ok folder, fs') ->
  folder = Storage.DATA_FOLDER_NAME
           :: (if Storage.exists_ fs ("Desktop" :: home) then "Desktop" :: home else home) /\
  Storage.is_dir fs' folder = true /\
  Storage.tree fs' /\
  (forall q k, fs !! q = Some k -> fs' !! q = Some k).
Proof.
  intros Ht H. rewrite storage_unfold in H. cbv zeta in H.
  destruct (Storage.mkdir_parents _ fs) as [[[]|e] fs1] eqn:Hm; [|discriminate].
  injection H as <- <-.
  destruct (mkdir_parents_spec _ _ _ _ Ht Hm) as (Ht' & Hmono & _ & Hdir).
  auto.
Qed.

Lemma tree_fs_without_desktop : Storage.tree Storage.fs_without_desktop.
Proof.
  intros p k H. unfold Storage.fs_without_desktop in H.
  repeat (apply lookup_insert_Some in H as [[<- _]|[_ H]]; [reflexivity|]).
  rewrite lookup_empty in H. discriminate.
Qed.


Lemma storage_without_desktop :
  Storage.get_storage_directory Storage.home Storage.fs_without_desktop
  = (Ok ["Telemetry_Data"; "user"; "home"],
     <[ ["Telemetry_Data"; "user"; "home"] := Storage.Dir ]> Storage.fs_without_desktop).
Proof. vm_compute. reflexivity. Qed.

Lemma storage_directory_exists_afterwards_witness :
  Storage.is_dir
    (<[ ["Telemetry_Data"; "user"; "home"] := Storage.Dir ]> Storage.fs_without_desktop)
    ["Telemetry_Data"; "user"; "home"] = true.
Proof.
  apply (storage_directory_exists_afterwards Storage.home _ Storage.fs_without_desktop _
           tree_fs_without_desktop storage_without_desktop).
Defined.

(** Calling [get_storage_directory] again after a success returns the same
    folder and changes nothing. *)
Theorem storage_directory_is_idempotent (home folder : list string)
    (fs fs' : gmap (list string) Storage.node) :
  Storage.tree fs ->
  Storage.get_storage_directory home fs = (Ok folder, fs') ->
  Storage.get_storage_directory home fs' = (Ok folder, fs').
Proof.
  intros Ht H. rewrite storage_unfold in H. cbv zeta in H.
  destruct (Storage.mkdir_parents _ fs) as [[[]|e] fs1] eqn:Hm; [|discriminate].
  injection H as <- <-.
  destruct (mkdir_parents_spec _ _ _ _ Ht Hm) as (Ht' & Hmono & Hnew & Hdir).
  assert (Hex : Storage.exists_ fs1 ("Desktop" :: home)
                = Storage.exists_ fs ("Desktop" :: home)).
  { unfold Storage.exists_. rewrite !node_at_cons.
    destruct (fs !! ("Desktop" :: home)) as [k|] eqn:E.
    - now rewrite (Hmono _ _ E).
    - destruct (fs1 !! ("Desktop" :: home)) as [k|] eqn:E1; [exfalso|reflexivity].
      destruct (Hnew ("Desktop" :: home)) as (pre & Hpre); [congruence|].
      unfold Storage.exists_ in Hpre. rewrite node_at_cons, E in Hpre.
      destruct pre as [|a pre].
      + discriminate Hpre.
      + apply (f_equal (@length string)) in Hpre. cbn in Hpre.
        rewrite length_app in Hpre. cbn in Hpre. lia. }
  rewrite storage_unfold. cbv zeta. rewrite Hex.
  remember (if Storage.exists_ fs ("Desktop" :: home) then "Desktop" :: home else home)
    as target eqn:Etarget. clear Etarget Hex.
  assert (Hf : fs1 !! (Storage.DATA_FOLDER_NAME :: target) = Some Storage.Dir).
  { rewrite is_dir_cons in Hdir.
    destruct (fs1 !! (Storage.DATA_FOLDER_NAME :: target)) as [[|]|]; congruence. }
  pose proof (Ht' _ _ Hf) as Hparent. cbn iota in Hparent.
  cbn [Storage.mkdir_parents Storage.os_mkdir].
  rewrite Hparent, Hf. cbv beta iota zeta.
  destruct is_FileNotFoundError_cases as (_ & -> & _). now rewrite Hdir.
Qed.

Lemma storage_directory_is_idempotent_witness :
  Storage.get_storage_directory Storage.home
    (<[ ["Telemetry_Data"; "user"; "home"] := Storage.Dir ]> Storage.fs_without_desktop)
  = (Ok ["Telemetry_Data"; "user"; "home"],
     <[ ["Telemetry_Data"; "user"; "home"] := Storage.Dir ]> Storage.fs_without_desktop).
Proof.
  apply (storage_directory_is_idempotent Storage.home _ Storage.fs_without_desktop _
           tree_fs_without_desktop storage_without_desktop).
Defined.



(** ** The hardware label *)

Lemma chars_append (a b : string) : chars (a +:+ b) = chars a ++ chars b.
Proof.
  unfold chars. induction a as [|c a IH]; [reflexivity|].
  cbn. now rewrite <- IH.
Qed.

(** [replace] invents no character: what comes out was in the text or in
    the replacement. *)
Lemma replace_from_chars (old new : string) (s : string) :
  forall (skip : nat) (c : ascii),
  In c (chars (replace_from old new skip s)) -> In c (chars new) \/ In c (chars s).
Proof.
  induction s as [|d s IH]; intros skip c H; [destruct H|].
  cbn [replace_from] in H. destruct skip as [|k].
  - destruct (String.prefix old (String d s)).
    + rewrite chars_append in H. apply in_app_or in H as [H|H]; [now left|].
      apply IH in H as [H|H]; [now left | right; now right].
    + destruct H as [<-|H]; [right; now left|].
      apply IH in H as [H|H]; [now left | right; now right].
  - apply IH in H as [H|H]; [now left | right; now right].
Qed.

Lemma prefix_single (a c : ascii) (s : string) :
  String.prefix (String a EmptyString) (String c s) = Ascii.eqb a c.
Proof.
  cbn. destruct (ascii_dec a c) as [->|Hne].
  - rewrite Ascii.eqb_refl. now destruct s.
  - symmetry. now apply Ascii.eqb_neq.
Qed.

(** Replacing a single character removes every occurrence of it. *)
Lemma replace_single_removes (a : ascii) (new s : string) :
  ~ In a (chars new) -> ~ In a (chars (replace (String a EmptyString) new s)).
Proof.
  intros Hnew. unfold replace. induction s as [|d s IH]; [intros []|].
  cbn [replace_from String.length Nat.sub]. rewrite prefix_single.
  destruct (Ascii.eqb_spec a d) as [->|Hne].
  - rewrite chars_append. intros H. apply in_app_or in H as [H|H]; auto.
  - intros [H|H]; [congruence | auto].
Qed.

(** A text without the first character of [old] is left as it is. *)
Lemma replace_absent (a : ascii) (old' new s : string) :
  ~ In a (chars s) -> replace (String a old') new s = s.
Proof.
  unfold replace. induction s as [|d s IH]; intros Hs; [reflexivity|].
  cbn [replace_from String.prefix].
  destruct (ascii_dec a d) as [->|Hne]; [exfalso; apply Hs; now left|].
  rewrite IH; [reflexivity|]. intros H. apply Hs. now right.
Qed.

Lemma uint_chars (d : Decimal.uint) (c : ascii) :
  In c (chars (NilEmpty.string_of_uint d)) -> In c (chars "0123456789").
Proof.
  induction d; cbn [NilEmpty.string_of_uint];
    (intros [<-|H]; [cbn; tauto | auto]) || intros [].
Qed.

Lemma str_int_chars (z : Z) (c : ascii) :
  In c (chars (str_int z)) -> In c (chars "-0123456789").
Proof.
  destruct z as [|p|p]; cbn [str_int].
  - intros [<-|[]]. cbn. tauto.
  - intros H. right. now apply uint_chars in H.
  - rewrite chars_append. intros H. apply in_app_or in H as [[<-|[]]|H].
    + now left.
    + right. now apply uint_chars in H.
Qed.

(** The label never contains a space, whatever the probes report. *)
Theorem hardware_label_has_no_space (win32 : bool) (wmic_stdout processor : result string)
    (total : result Z) (label : string) :
  get_hardware_label win32 wmic_stdout processor total = Ok label ->
  ~ In " "%char (chars label).
Proof.
  unfold get_hardware_label. destruct total as [t|e]; [|discriminate].
  intros [= <-] H.
  apply replace_from_chars in H as [[]|H].
  apply replace_from_chars in H as [[]|H].
  revert H. apply replace_single_removes. cbn. intros [H|[]]. discriminate H.
Qed.

Lemma hardware_label_has_no_space_witness :
  get_hardware_label true (Ok wmic_example) (Raise KeyboardInterrupt) (Ok 17179869184%Z)
  = Ok "Intel_Core_i7-9750H_CPU_@_2.60GHz-RAM16GB" /\
  ~ In " "%char (chars "Intel_Core_i7-9750H_CPU_@_2.60GHz-RAM16GB").
Proof.
  split; [vm_compute; reflexivity|].
  apply (hardware_label_has_no_space true (Ok wmic_example) (Raise KeyboardInterrupt)
           (Ok 17179869184%Z)).
  vm_compute. reflexivity.
Defined.

Lemma split_lines_single (s : string) :
  (forall c, In c (chars s) -> c <> "010"%char) -> split_lines s = [s].
Proof.
  induction s as [|d s IH]; intros H; [reflexivity|].
  cbn [split_lines]. destruct (Ascii.eqb_spec d "010") as [->|_].
  - exfalso. apply (H "010"%char); [now left | reflexivity].
  - rewrite IH; [reflexivity|]. intros c Hc. apply H. now right.
Qed.

Lemma probe_failed_cpu_name (win32 : bool) (wmic_stdout processor : result string) :
  probe_failed win32 wmic_stdout processor ->
  cpu_name win32 wmic_stdout processor = "UnknownCPU".
Proof.
  unfold probe_failed, cpu_name. destruct win32.
  - destruct wmic_stdout as [stdout|e]; [|reflexivity].
    intros H. now rewrite (split_lines_single stdout H).
  - destruct processor as [name|e]; [|reflexivity]. now intros ->.
Qed.

(** When the CPU probe finds no name (it raises anything at all, prints no
    second line, or returns the empty string) the label is
    [UnknownCPU-RAM<n>GB], untouched by the clean-up, where [n] is the
    memory size in GiB rounded to the nearest integer. *)
Theorem hardware_label_falls_back_to_unknown_cpu (win32 : bool)
    (wmic_stdout processor : result string) (total : Z) :
  probe_failed win32 wmic_stdout processor ->
  exists n : Z,
    get_hardware_label win32 wmic_stdout processor (Ok total)
    = Ok ("UnknownCPU-RAM" +:+ str_int n +:+ "GB") /\
    (Qabs (inject_Z n - inject_Z total / inject_Z (1024 ^ 3)) <= 1 # 2)%Q.
Proof.
  intros Hp. exists (round_half_even (inject_Z total / inject_Z (1024 ^ 3))).
  split; [|apply round_half_even_near].
  unfold get_hardware_label. rewrite (probe_failed_cpu_name _ _ _ Hp).
  set (label := "UnknownCPU" +:+ "-RAM" +:+ _ +:+ "GB").
  assert (Hchars : forall c, In c (chars label) -> In c (chars "UnknownCPU-RAMGB-0123456789")).
  { intros c. unfold label. rewrite !chars_append.
    intros H. apply in_app_or in H as [H|H]; [cbn in *; tauto|].
    apply in_app_or in H as [H|H]; [cbn in *; tauto|].
    apply in_app_or in H as [H|H]; [|cbn in *; tauto].
    apply str_int_chars in H. cbn in *. tauto. }
  assert (Hno : forall a, ~ In a (chars "UnknownCPU-RAMGB-0123456789") ->
                          ~ In a (chars label)) by (intros a Ha H; auto).
  rewrite (replace_absent " " "" "_" label), (replace_absent "(" "R)" "" label),
    (replace_absent "(" "TM)" "" label); [reflexivity|apply Hno..];
    cbn; intros H; repeat (destruct H as [H|H]; [discriminate H|]); exact H.
Qed.

Lemma hardware_label_falls_back_to_unknown_cpu_witness :
  get_hardware_label true (Ok "Name") (Ok "x86_64") (Ok (8 * 1024 ^ 3 + 2 ^ 29)%Z)
  = Ok "UnknownCPU-RAM8GB".
Proof.
  destruct (hardware_label_falls_back_to_unknown_cpu true (Ok "Name") (Ok "x86_64")
              (8 * 1024 ^ 3 + 2 ^ 29)%Z) as (n & Hl & _).
  - intros c H. cbn in H.
    repeat (destruct H as [<-|H]; [discriminate|]). destruct H.
  - vm_compute. reflexivity.
Defined.

Lemma prefix_nil (s : string) : String.prefix EmptyString s = true.
Proof. now destruct s. Qed.

Lemma append_nil_l (s : string) : EmptyString +:+ s = s.
Proof. reflexivity. Qed.

Lemma append_cons (c : ascii) (a b : string) : String c a +:+ b = String c (a +:+ b).
Proof. reflexivity. Qed.

Lemma append_assoc_str (a b c : string) : (a +:+ b) +:+ c = a +:+ (b +:+ c).
Proof.
  induction a as [|x a IH]; [reflexivity|].
  rewrite !append_cons. now rewrite IH.
Qed.

Lemma prefix_app_tail (old x b' : string) (h : ascii) :
  ~ In h (chars old) ->
  String.prefix old (x +:+ String h b') = String.prefix old x.
Proof.
  revert x. induction old as [|o old IH]; intros x Hh.
  - now rewrite !prefix_nil.
  - assert (Hne : o <> h) by (intros ->; apply Hh; now left).
    assert (Hh' : ~ In h (chars old)) by (intros H; apply Hh; now right).
    destruct x as [|y x]; rewrite ?append_nil_l, ?append_cons; cbn [String.prefix].
    + now destruct (ascii_dec o h).
    + destruct (ascii_dec o y); [now apply IH | reflexivity].
Qed.

Lemma prefix_length (old s : string) :
  String.prefix old s = true -> String.length old <= String.length s.
Proof.
  revert s. induction old as [|o old IH]; intros s H; [cbn; lia|].
  destruct s as [|y s]; [discriminate H|]. cbn [String.prefix] in H.
  destruct (ascii_dec o y); [|discriminate H]. apply IH in H. cbn. lia.
Qed.

(** A replacement leaves a tail alone when the tail starts with a character
    that does not occur in [old] and holds no occurrence of [old] itself. *)
Lemma replace_from_app (old new a b' : string) (h : ascii) :
  ~ In h (chars old) ->
  replace_from old new 0 (String h b') = String h b' ->
  forall skip, skip <= String.length a ->
  replace_from old new skip (a +:+ String h b')
  = replace_from old new skip a +:+ String h b'.
Proof.
  intros Hh Hb. induction a as [|c a IH]; intros skip Hs.
  - cbn in Hs. assert (skip = 0) as -> by lia. exact Hb.
  - rewrite append_cons. destruct skip as [|k].
    + cbn [replace_from]. rewrite <- append_cons.
      rewrite (prefix_app_tail old (String c a) b' h Hh).
      destruct (String.prefix old (String c a)) eqn:Hp.
      * apply prefix_length in Hp. cbn in Hp.
        rewrite IH by lia. now rewrite append_assoc_str.
      * rewrite IH by lia. now rewrite append_cons.
    + cbn [replace_from]. apply IH. cbn in Hs. lia.
Qed.

Lemma ram_suffix_kept (a : ascii) (old' new cpu : string) (n : Z) :
  ~ In a (chars "-RAMGB0123456789") ->
  ~ In "-"%char (chars (String a old')) ->
  replace (String a old') new (cpu +:+ "-RAM" +:+ str_int n +:+ "GB")
  = replace (String a old') new cpu +:+ "-RAM" +:+ str_int n +:+ "GB".
Proof.
  intros Ha Hd. unfold replace.
  change ("-RAM" +:+ str_int n +:+ "GB") with (String "-" ("RAM" +:+ str_int n +:+ "GB")).
  apply replace_from_app; [exact Hd | | lia].
  refine (replace_absent a old' new _ _). intros H.
  change (String "-" ("RAM" +:+ str_int n +:+ "GB")) with ("-RAM" +:+ str_int n +:+ "GB") in H.
  rewrite !chars_append in H. apply Ha.
  apply in_app_or in H as [H|H]; [cbn in *; tauto|].
  apply in_app_or in H as [H|H]; [|cbn in *; tauto].
  apply str_int_chars in H. cbn in *. tauto.
Qed.

(** The clean-up touches the CPU name only: the label is the cleaned CPU
    name followed by [-RAM<n>GB], where [n] is the memory size in GiB rounded
    to the nearest integer. *)
Theorem hardware_label_keeps_the_ram_suffix (win32 : bool)
    (wmic_stdout processor : result string) (total : Z) :
  exists n : Z,
    get_hardware_label win32 wmic_stdout processor (Ok total)
    = Ok (replace "(TM)" "" (replace "(R)" "" (replace " " "_"
            (cpu_name win32 wmic_stdout processor)))
          +:+ "-RAM" +:+ str_int n +:+ "GB") /\
    (Qabs (inject_Z n - inject_Z total / inject_Z (1024 ^ 3)) <= 1 # 2)%Q.
Proof.
  exists (round_half_even (inject_Z total / inject_Z (1024 ^ 3))).
  split; [|apply round_half_even_near].
  unfold get_hardware_label.
  rewrite (ram_suffix_kept " " "" "_"), (ram_suffix_kept "(" "R)" ""),
    (ram_suffix_kept "(" "TM)" ""); [reflexivity|..];
    cbn; intros H; repeat (destruct H as [H|H]; [discriminate H|]); exact H.
Qed.
